(** * go-i18n, package i18n: the message bundle (v2/i18n/bundle.go)

    A shallow embedding of [Bundle] and of the operations that maintain its
    message templates, its per-country tag lists and its language matcher,
    of the loading of message files, and of [CreateDefaultBundle] of
    v2/example/main.go, followed by the properties of these operations.

    Conventions of the embedding.
    - A Go method that mutates its receiver takes the bundle and returns the
      new one; [AddMessages] returns the new bundle together with its error
      (absent for [nil]).
    - A Go map is a finite map; a field that may hold the [nil] map is an
      [option].  Reading a [nil] map yields the zero value, as reading an
      empty one does; writing to it is guarded in the source by the [nil]
      tests that the embedding keeps.
    - A [language.Tag] is represented by its canonical string, so that
      [tag.String()] is the tag itself and [==] on tags is string equality.
    - [AddMessages] takes the messages that its pointers point to;
      [AddMessages_pointers] and [MustAddMessages] take the pointers
      themselves, [None] for [nil], with the panic of reading through a
      [nil] pointer. *)

From Stdlib Require Import String Ascii List.
From stdpp Require Import gmap strings list fin_maps.

Local Open Scope string_scope.

(** ** Data *)

(** [language.Tag] of golang.org/x/text, by canonical string form. *)
Abbreviation Tag := string (only parsing).

(** [language.English] and the package variable
    [artTag = language.MustParse("art")]. *)
Definition English : Tag := "en".
Definition artTag : Tag := "art".

(** Modelled from the spec: the plural categories of package
    [internal/plural], a fixed closed set. *)
Inductive PluralCategory : Type :=
  | Zero | One | Two | Few | Many | Other.

(** Modelled from the spec: a plural rule of package [internal/plural], a
    function from a count to its plural category. *)
Definition PluralRule : Type := nat -> PluralCategory.

(** [plural.Rules], declared in [internal/plural] as a map from tags to
    rules.  A key holding a [nil] rule reads like a missing key. *)
Abbreviation Rules := (gmap string PluralRule) (only parsing).

(** Modelled from the spec: the base language of a tag, its first subtag
    (the part of the canonical form before the first hyphen). *)
Fixpoint base (t : Tag) : Tag :=
  match t with
  | EmptyString => EmptyString
  | String c rest =>
      if Ascii.eqb c "-"%char then EmptyString else String c (base rest)
  end.

(** Whether a string holds a hyphen, the separator of [messageTemplateKey]. *)
Fixpoint hasHyphen (s : string) : bool :=
  match s with
  | EmptyString => false
  | String c rest => Ascii.eqb c "-"%char || hasHyphen rest
  end.

(** Modelled from the spec: [Rules.Rule] of package [internal/plural], the
    rule of the most specific matching tag: the exact tag first, then its
    base language, and no rule when neither is registered. *)
Definition Rules_Rule (r : Rules) (tag : Tag) : option PluralRule :=
  match r !! tag with
  | Some rule => Some rule
  | None => r !! base tag
  end.

(** The map write [r[tag] = rule] with a rule pointer that may be [nil]. *)
Definition Rules_set (r : Rules) (tag : Tag) (rule : option PluralRule) : Rules :=
  match rule with
  | Some x => <[tag := x]> r
  | None => delete tag r
  end.

(** Modelled from the spec: the source record [Message] of message.go, an
    ID and one text per plural category. *)
Record Message : Type := mkMessage {
  ID : string;
  MZero : string;
  MOne : string;
  MTwo : string;
  MFew : string;
  MMany : string;
  MOther : string
}.

(** The matcher built by [language.NewMatcher] of golang.org/x/text: it
    keeps the supported tags in the order given. *)
Record Matcher : Type := NewMatcher { supported : list Tag }.

(** The first preferred tag that is itself supported, with its index. *)
Fixpoint Match_exact (sup want : list Tag) : option (nat * Tag) :=
  match want with
  | [] => None
  | w :: ws =>
      match list_find (λ t, t = w) sup with
      | Some hit => Some hit
      | None => Match_exact sup ws
      end
  end.

(** [Matcher.Match] as far as it is documented for tags that are unrelated
    unless equal: a preferred tag that is supported matches itself, in
    preference order; when no preferred tag matches, the first supported
    tag is the default, at index 0.  The closeness rules of x/text between
    related tags are not modelled. *)
Definition Match (m : Matcher) (want : list Tag) : Tag * nat :=
  match Match_exact (supported m) want with
  | Some (i, t) => (t, i)
  | None => (default "und" (head (supported m)), 0)
  end.

Section Store.

(** [MessageTemplate] and its constructor live in message_template.go; the
    constructor returns a pointer, which may be [nil]. *)
Context {MessageTemplate : Type}.
Variable NewMessageTemplate : Message -> option MessageTemplate.

(** [plural.DefaultRules()], the generated default rule table. *)
Variable DefaultRules : Rules.

(** [Bundle].  The registry [unmarshalFuncs] belongs to the file loading
    adapters; none of the operations below reads or writes it and it is
    left out. *)
Record Bundle : Type := mkBundle {
  defaultLanguage : Tag;
  messageTemplates : option (gmap string (gmap string (option MessageTemplate)));
  pluralRules : Rules;
  countryTagPair : option (gmap string (list Tag));
  matcher : option Matcher
}.

Definition set_messageTemplates (b : Bundle) v : Bundle :=
  mkBundle (defaultLanguage b) v (pluralRules b) (countryTagPair b) (matcher b).
Definition set_pluralRules (b : Bundle) v : Bundle :=
  mkBundle (defaultLanguage b) (messageTemplates b) v (countryTagPair b) (matcher b).
Definition set_countryTagPair (b : Bundle) v : Bundle :=
  mkBundle (defaultLanguage b) (messageTemplates b) (pluralRules b) v (matcher b).
Definition set_matcher (b : Bundle) v : Bundle :=
  mkBundle (defaultLanguage b) (messageTemplates b) (pluralRules b) (countryTagPair b) v.

(** ** Operations *)

(** [messageTemplateKey]: [countryCode + "-" + tag.String()]. *)
Definition messageTemplateKey (countryCode : string) (tag : Tag) : string :=
  countryCode +:+ "-" +:+ tag.

(** [b.messageTemplates[key]]; the [nil] inner map is [None]. *)
Definition templatesAt (b : Bundle) (key : string)
  : option (gmap string (option MessageTemplate)) :=
  match messageTemplates b with
  | None => None
  | Some mts => mts !! key
  end.

(** [LanguageTags]: [b.countryTagPair[countryCode]], the [nil] slice being
    the empty list. *)
Definition LanguageTags (b : Bundle) (countryCode : string) : list Tag :=
  match countryTagPair b with
  | None => []
  | Some ctp => default [] (ctp !! countryCode)
  end.

(** The two nested loops of [addTag]: whether some entry [cc, tags] of
    [countryTagPair] has [cc == countryCode] and holds [tag]. *)
Definition tagExists (b : Bundle) (countryCode : string) (tag : Tag) : bool :=
  match countryTagPair b with
  | None => false
  | Some ctp =>
      existsb
        (λ entry : string * list Tag,
           existsb
             (λ t, bool_decide (entry.1 = countryCode) && bool_decide (t = tag))
             entry.2)
        (map_to_list ctp)
  end.

(** [addTag]. *)
Definition addTag (b : Bundle) (countryCode : string) (tag : Tag) : Bundle :=
  if tagExists b countryCode tag then b
  else
    let ctp := default ∅ (countryTagPair b) in
    let tags := (default [] (ctp !! countryCode) ++ [tag])%list in
    set_matcher
      (set_countryTagPair b (Some (<[countryCode := tags]> ctp)))
      (Some (NewMatcher tags)).

(** [NewBundle]. *)
Definition NewBundle (countryCode : string) (defaultLanguage : Tag) : Bundle :=
  let b := mkBundle defaultLanguage None DefaultRules None None in
  let b := set_pluralRules b
             (Rules_set (pluralRules b) artTag (Rules_Rule (pluralRules b) English)) in
  addTag b countryCode defaultLanguage.

(** The write [b.messageTemplates[key][id] = mt].  Where the source performs
    it the inner map exists (see [AddMessages_loop_key]), so the fault of
    writing to a [nil] map does not arise. *)
Definition storeTemplate (key : string) (b : Bundle) (m : Message) : Bundle :=
  set_messageTemplates b
    (alter (insert (ID m) (NewMessageTemplate m)) key <$> messageTemplates b).

(** The error of [AddMessages], by its message. *)
Definition noPluralRuleError (tag : Tag) : string :=
  "no plural rule registered for " +:+ tag.

(** [AddMessages]: the bundle after the call and the error returned. *)
Definition AddMessages (b : Bundle) (countryCode : string) (tag : Tag)
    (messages : list Message) : Bundle * option string :=
  match Rules_Rule (pluralRules b) tag with
  | None => (b, Some (noPluralRuleError tag))
  | Some _ =>
      let key := messageTemplateKey countryCode tag in
      let b1 :=
        match messageTemplates b with
        | None => set_messageTemplates b (Some ∅)
        | Some _ => b
        end in
      let b2 :=
        match templatesAt b1 key with
        | None =>
            addTag
              (set_messageTemplates b1 (<[key := ∅]> <$> messageTemplates b1))
              countryCode tag
        | Some _ => b1
        end in
      (foldl (storeTemplate key) b2 messages, None)
  end.

(** [getMessageTemplate]. *)
Definition getMessageTemplate (b : Bundle) (tag : Tag) (id countryCode : string)
  : option MessageTemplate :=
  let key := messageTemplateKey countryCode tag in
  match templatesAt b key with
  | None => None
  | Some templates => default None (templates !! id)
  end.

(** ** Derived notions *)

(** The templates stored by the loop of [AddMessages] into one inner map. *)
Definition storeAll (ts : gmap string (option MessageTemplate))
    (messages : list Message) : gmap string (option MessageTemplate) :=
  foldl (λ ts m, <[ID m := NewMessageTemplate m]> ts) ts messages.

(** The bundle in which [AddMessages] runs its loop: [addTag] has been
    called when the inner map of the key was missing. *)
Definition afterAddTag (b : Bundle) (countryCode : string) (tag : Tag) : Bundle :=
  match templatesAt b (messageTemplateKey countryCode tag) with
  | None => addTag b countryCode tag
  | Some _ => b
  end.

(** One call of [AddMessages], and a bundle run through a sequence of
    calls, whatever each call returns. *)
Record Call : Type := mkCall {
  callCountry : string;
  callTag : Tag;
  callMessages : list Message
}.

Definition step (b : Bundle) (c : Call) : Bundle :=
  (AddMessages b (callCountry c) (callTag c) (callMessages c)).1.

Definition run (b : Bundle) (calls : list Call) : Bundle := foldl step b calls.

(** The call is for the pair and returns no error in [b]. *)
Definition addsFor (b : Bundle) (countryCode : string) (tag : Tag) (c : Call) : Prop :=
  callCountry c = countryCode ∧ callTag c = tag ∧
  is_Some (Rules_Rule (pluralRules b) tag).

(** The key under which a call stores its templates. *)
Definition callKey (c : Call) : string :=
  messageTemplateKey (callCountry c) (callTag c).

(** Among the calls, one for the pair returns no error and brings at least
    one message. *)
Definition messageAdded (b : Bundle) (calls : list Call)
    (countryCode : string) (tag : Tag) : Prop :=
  ∃ c, c ∈ calls ∧ addsFor b countryCode tag c ∧ callMessages c ≠ [].

(** No template map is stored under the key of the pair and the tag is not
    in the list of its country code: the case in which [AddMessages]
    appends the tag and rebuilds the matcher. *)
Definition unseen (b : Bundle) (countryCode : string) (tag : Tag) : Prop :=
  templatesAt b (messageTemplateKey countryCode tag) = None ∧
  tag ∉ LanguageTags b countryCode.

(** [b.matcher.Match(want...)], the match that the matcher of the bundle
    gives for a list of preferred tags; nothing for the [nil] matcher. *)
Definition bestMatch (b : Bundle) (want : list Tag) : option (Tag * nat) :=
  (λ m, Match m want) <$> matcher b.

(** Two matchers over the same supported tags, in whatever order. *)
Definition sameSupported (m1 m2 : option Matcher) : Prop :=
  match m1, m2 with
  | Some x, Some y => supported x ≡ₚ supported y
  | None, None => True
  | _, _ => False
  end.

End Store.

Arguments Bundle : clear implicits.

(** ** A small instance

    A default table with the rule of English (one for a count of 1, other
    otherwise, as the spec gives it) under four tags, and templates that
    keep the message as it is. *)
Definition englishRule : PluralRule := λ n, if Nat.eqb n 1 then One else Other.

Definition sampleRules : gmap string PluralRule :=
  <["en" := englishRule]> (<["tr" := englishRule]>
    (<["de" := englishRule]> (<["fr" := englishRule]> ∅))).

Definition sampleBundle (countryCode : string) (defaultLanguage : Tag) : Bundle Message :=
  NewBundle sampleRules countryCode defaultLanguage.

Definition sampleAdd (b : Bundle Message) (countryCode : string) (tag : Tag)
    (messages : list Message) : Bundle Message :=
  (AddMessages Some b countryCode tag messages).1.

Definition hello : Message := mkMessage "hello" "" "" "" "" "" "Hello".
Definition merhaba : Message := mkMessage "hello" "" "" "" "" "" "Merhaba".

(** ** Loading message files, and the variants that panic

    The rest of bundle.go.  The bundle is taken together with its registry
    [unmarshalFuncs], which the record [Bundle] leaves out.  The file
    system, the package function [ParseMessageFileBytes] of parse.go and
    the type [MessageFile] of message_file.go are not part of bundle.go:
    reading a file and parsing its bytes are parameters, and of a message
    file only the fields [Tag] and [Messages], which the bundle reads, are
    used.  An error is represented by its message. *)

(** How a call that may panic ends: it returns, or it panics with an
    error; in both cases with the state it has reached. *)
Inductive Outcome (S : Type) : Type :=
  | Returned (s : S)
  | Panicked (s : S) (err : string).

Arguments Returned {S} s.
Arguments Panicked {S} s err.

(** [language.Turkish], and the file name [fmt.Sprintf(filePattern, lang)]
    of example/main.go, with [filePattern = "active.%s.toml"]. *)
Definition Turkish : Tag := "tr".

Definition filePattern (lang : string) : string :=
  "active." +:+ lang +:+ ".toml".

(** The messages that the successful calls of a sequence bring under a
    key, in the order of the calls; a call is successful when the rules,
    which no call changes, have a rule for its tag. *)
Definition storedMessages (rules : gmap string PluralRule) (key : string)
    (calls : list Call) : list Message :=
  concat (callMessages <$>
            filter (λ c, callKey c = key ∧ is_Some (Rules_Rule rules (callTag c))) calls).

(** The tags of a sequence in the order in which they first occur. *)
Definition firstSeen (tags : list Tag) : list Tag :=
  foldl (λ seen t, if decide (t ∈ seen) then seen else (seen ++ [t])%list) [] tags.

(** The tags added under a country code, in the order of the adds: the
    default language when the country code is that of [NewBundle], then
    the tag of every successful call for the country code. *)
Definition addedTags (rules : gmap string PluralRule) (cc0 : string) (dl : Tag)
    (calls : list Call) (c : string) : list Tag :=
  ((if decide (cc0 = c) then [dl] else []) ++
   (callTag <$>
      filter (λ call, callCountry call = c ∧ is_Some (Rules_Rule rules (callTag call)))
        calls))%list.

Section Loading.

Context {MessageTemplate : Type}.
Variable NewMessageTemplate : Message -> option MessageTemplate.
Variable DefaultRules : gmap string PluralRule.

(** [UnmarshalFunc], a function value, and [MessageFile] with its fields
    [Tag] and [Messages]. *)
Context {UnmarshalFunc MessageFile : Type}.
Variable fileTag : MessageFile -> Tag.
Variable fileMessages : MessageFile -> list Message.

(** The package function [ParseMessageFileBytes(buf, path, unmarshalFuncs)]
    and [os.ReadFile(path)]. *)
Variable ParseMessageFileBytes :
  list Byte.byte -> string -> option (gmap string UnmarshalFunc) -> string + MessageFile.
Variable ReadFile : string -> string + list Byte.byte.

(** [filepath.Join], [strings.ToLower] and the value [toml.Unmarshal], used
    by example/main.go. *)
Variable Join : list string -> string.
Variable ToLower : string -> string.
Variable tomlUnmarshal : UnmarshalFunc.

(** The bundle with its registry of unmarshal functions. *)
Record FileBundle : Type := mkFileBundle {
  store : Bundle MessageTemplate;
  unmarshalFuncs : option (gmap string UnmarshalFunc)
}.

(** [RegisterUnmarshalFunc]. *)
Definition RegisterUnmarshalFunc (l : FileBundle) (format : string)
    (unmarshalFunc : UnmarshalFunc) : FileBundle :=
  let funcs :=
    match unmarshalFuncs l with
    | None => ∅
    | Some funcs => funcs
    end in
  mkFileBundle (store l) (Some (<[format := unmarshalFunc]> funcs)).

(** [b.unmarshalFuncs[format]], as the parser reads the registry. *)
Definition unmarshalFuncFor (l : FileBundle) (format : string) : option UnmarshalFunc :=
  match unmarshalFuncs l with
  | None => None
  | Some funcs => funcs !! format
  end.

(** The method [ParseMessageFileBytes]: the bundle after the call, and the
    error or the message file returned. *)
Definition Bundle_ParseMessageFileBytes (l : FileBundle) (buf : list Byte.byte)
    (path countryCode : string) : FileBundle * (string + MessageFile) :=
  match ParseMessageFileBytes buf path (unmarshalFuncs l) with
  | inl err => (l, inl err)
  | inr messageFile =>
      match AddMessages NewMessageTemplate (store l) countryCode
              (fileTag messageFile) (fileMessages messageFile) with
      | (b, Some err) => (mkFileBundle b (unmarshalFuncs l), inl err)
      | (b, None) => (mkFileBundle b (unmarshalFuncs l), inr messageFile)
      end
  end.

(** [LoadMessageFile]. *)
Definition LoadMessageFile (l : FileBundle) (path countryCode : string)
  : FileBundle * (string + MessageFile) :=
  match ReadFile path with
  | inl err => (l, inl err)
  | inr buf => Bundle_ParseMessageFileBytes l buf path countryCode
  end.

(** [MustLoadMessageFile], which takes the country code first. *)
Definition MustLoadMessageFile (l : FileBundle) (countryCode path : string)
  : Outcome FileBundle :=
  match LoadMessageFile l path countryCode with
  | (l', inl err) => Panicked l' err
  | (l', inr _) => Returned l'
  end.

(** [MustParseMessageFileBytes]. *)
Definition MustParseMessageFileBytes (l : FileBundle) (buf : list Byte.byte)
    (path countryCode : string) : Outcome FileBundle :=
  match Bundle_ParseMessageFileBytes l buf path countryCode with
  | (l', inl err) => Panicked l' err
  | (l', inr _) => Returned l'
  end.

(** The run-time panic of reading a field through a [nil] pointer, by its
    message. *)
Definition nilPointerPanic : string :=
  "runtime error: invalid memory address or nil pointer dereference".

(** The loop of [AddMessages] over the message pointers as the caller
    hands them, [None] for [nil]: [m.ID] panics at the first [nil] pointer,
    when the templates of the messages before it are stored. *)
Fixpoint storeTemplates (key : string) (b : Bundle MessageTemplate)
    (messages : list (option Message)) : Outcome (Bundle MessageTemplate) :=
  match messages with
  | [] => Returned b
  | None :: _ => Panicked b nilPointerPanic
  | Some m :: messages => storeTemplates key (storeTemplate NewMessageTemplate key b m) messages
  end.

(** [AddMessages] over message pointers: on the left the bundle and the
    error it returns, on the right the bundle it has reached and the value
    it panics with. *)
Definition AddMessages_pointers (b : Bundle MessageTemplate) (countryCode : string)
    (tag : Tag) (messages : list (option Message))
  : (Bundle MessageTemplate * option string) + (Bundle MessageTemplate * string) :=
  match Rules_Rule (pluralRules b) tag with
  | None => inl (b, Some (noPluralRuleError tag))
  | Some _ =>
      let key := messageTemplateKey countryCode tag in
      let b1 :=
        match messageTemplates b with
        | None => set_messageTemplates b (Some ∅)
        | Some _ => b
        end in
      let b2 :=
        match templatesAt b1 key with
        | None =>
            addTag
              (set_messageTemplates b1 (<[key := ∅]> <$> messageTemplates b1))
              countryCode tag
        | Some _ => b1
        end in
      match storeTemplates key b2 messages with
      | Returned b3 => inl (b3, None)
      | Panicked b3 err => inr (b3, err)
      end
  end.

(** [MustAddMessages]: it panics with the error that [AddMessages]
    returns, and a panic of [AddMessages] goes through it. *)
Definition MustAddMessages (b : Bundle MessageTemplate) (countryCode : string)
    (tag : Tag) (messages : list (option Message)) : Outcome (Bundle MessageTemplate) :=
  match AddMessages_pointers b countryCode tag messages with
  | inl (b', Some err) => Panicked b' err
  | inl (b', None) => Returned b'
  | inr (b', err) => Panicked b' err
  end.

(** [generateFullPath] of example/main.go. *)
Definition generateFullPath (fileNames : list string) : string := Join fileNames.

(** The inner loop of [CreateDefaultBundle], over the languages of one
    country code: it stops at the first file that fails to load. *)
Fixpoint loadLanguages (l : FileBundle) (folderPath countryCode : string)
    (languages : list string) : FileBundle * option string :=
  match languages with
  | [] => (l, None)
  | lang :: rest =>
      let fullPath :=
        generateFullPath [folderPath; ToLower countryCode; filePattern lang] in
      match LoadMessageFile l fullPath (ToLower countryCode) with
      | (l', inl err) => (l', Some err)
      | (l', inr _) => loadLanguages l' folderPath countryCode rest
      end
  end.

(** The outer loop, over the entries of the map [countryLanguagesPairs] in
    the order in which the [range] statement visits them. *)
Fixpoint loadCountries (l : FileBundle) (folderPath : string)
    (entries : list (string * list string)) : FileBundle * option string :=
  match entries with
  | [] => (l, None)
  | (countryCode, languages) :: rest =>
      match loadLanguages l folderPath countryCode languages with
      | (l', Some err) => (l', Some err)
      | (l', None) => loadCountries l' folderPath rest
      end
  end.

(** [CreateDefaultBundle] of example/main.go: the value of the package
    variable [bundle] after the call, given its value before, and the
    error returned. *)
Definition CreateDefaultBundle (bundle : option FileBundle) (folderPath : string)
    (entries : list (string * list string)) : option FileBundle * option string :=
  let b := mkFileBundle (NewBundle DefaultRules "tr" Turkish) None in
  let b := RegisterUnmarshalFunc b "toml" tomlUnmarshal in
  match loadCountries b folderPath entries with
  | (_, Some err) => (bundle, Some err)
  | (b, None) => (Some b, None)
  end.

(** The pairs of a lower-cased country code and a language for which
    [CreateDefaultBundle] loads a file, in the order of the loops. *)
Definition filesOf (entries : list (string * list string)) : list (string * string) :=
  concat ((λ e : string * list string, (λ lang, (ToLower e.1, lang)) <$> e.2) <$> entries).

(** The path of the file of such a pair. *)
Definition filePath (folderPath : string) (f : string * string) : string :=
  generateFullPath [folderPath; f.1; filePattern f.2].

(** The two loops as one, over the pairs of [filesOf]. *)
Fixpoint loadFiles (l : FileBundle) (folderPath : string)
    (files : list (string * string)) : FileBundle * option string :=
  match files with
  | [] => (l, None)
  | f :: rest =>
      match LoadMessageFile l (filePath folderPath f) f.1 with
      | (l', inl err) => (l', Some err)
      | (l', inr _) => loadFiles l' folderPath rest
      end
  end.

(** The call of [AddMessages] that loading the file of a pair amounts to:
    the file is read and parsed with the registry of [l], its tag has a
    plural rule in [l], and the call brings its tag and its messages under
    the country code of the pair. *)
Definition loadedAs (l : FileBundle) (folderPath : string) (c : Call)
    (f : string * string) : Prop :=
  callCountry c = f.1 ∧
  ∃ buf messageFile,
    ReadFile (filePath folderPath f) = inr buf ∧
    ParseMessageFileBytes buf (filePath folderPath f) (unmarshalFuncs l) = inr messageFile ∧
    is_Some (Rules_Rule (pluralRules (store l)) (fileTag messageFile)) ∧
    callTag c = fileTag messageFile ∧
    callMessages c = fileMessages messageFile.

End Loading.

Arguments FileBundle : clear implicits.

(** A message file as a tag with messages; a file system with one missing
    path; a parser that knows three paths and needs the "toml" function,
    here a unit value; paths joined by a slash; and the lower case of
    ASCII letters. *)
Definition sampleParse (buf : list Byte.byte) (path : string)
    (funcs : option (gmap string unit)) : string + (string * list Message) :=
  match funcs with
  | None => inl "no unmarshaler registered"
  | Some fs =>
      match fs !! "toml" with
      | None => inl "no unmarshaler registered"
      | Some _ =>
          if String.eqb path "lang/tr/active.tr.toml" then inr ("tr", [merhaba])
          else if String.eqb path "lang/gb/active.en.toml" then inr ("en", [hello])
          else if String.eqb path "lang/tr/active.zz.toml" then inr ("zz", [hello])
          else inl "malformed file"
      end
  end.

Definition sampleRead (path : string) : string + list Byte.byte :=
  if String.eqb path "lang/tr/missing.toml" then inl "no such file" else inr [].

Definition sampleJoin (names : list string) : string :=
  match names with
  | [] => ""
  | n :: rest => foldl (λ acc x, acc +:+ "/" +:+ x) n rest
  end.

Definition lowerAscii (c : ascii) : ascii :=
  let n := nat_of_ascii c in
  if Nat.leb 65 n && Nat.leb n 90 then ascii_of_nat (n + 32) else c.

Fixpoint sampleLower (s : string) : string :=
  match s with
  | EmptyString => EmptyString
  | String c rest => String (lowerAscii c) (sampleLower rest)
  end.

Definition sampleCreate (entries : list (string * list string))
  : option (FileBundle Message unit) * option string :=
  CreateDefaultBundle Some sampleRules fst snd sampleParse sampleRead sampleJoin
    sampleLower tt None "lang" entries.

Definition sampleFileBundle : FileBundle Message unit :=
  RegisterUnmarshalFunc (mkFileBundle (sampleBundle "tr" "en") None) "toml" tt.

Section StoreFacts.

Context {MessageTemplate : Type}.
Variable NewMessageTemplate : Message -> option MessageTemplate.
Variable DefaultRules : gmap string PluralRule.

Implicit Types b : Bundle MessageTemplate.

(** ** Basic facts *)

(** The loops of [addTag] look for [tag] in the list of [countryCode]. *)
Lemma tagExists_spec b (countryCode : string) (tag : Tag) :
  tagExists b countryCode tag = true ↔ tag ∈ LanguageTags b countryCode.
Proof.
  unfold tagExists, LanguageTags.
  destruct (countryTagPair b) as [ctp|]; simpl.
  - rewrite existsb_exists. split.
    + intros [[cc tags] [Hin Hex]]. simpl in Hex.
      apply existsb_exists in Hex as [t [Ht Heq]].
      apply andb_true_iff in Heq as [Hcc Htag].
      apply bool_decide_eq_true in Hcc, Htag. subst.
      apply list_elem_of_In, elem_of_map_to_list in Hin.
      rewrite Hin. simpl. by apply list_elem_of_In.
    + intros Hin. destruct (ctp !! countryCode) as [tags|] eqn:Hl; simpl in Hin.
      * exists (countryCode, tags). split.
        { by apply list_elem_of_In, elem_of_map_to_list. }
        simpl. apply existsb_exists. exists tag. split.
        { by apply list_elem_of_In. }
        apply andb_true_iff. split; by apply bool_decide_eq_true.
      * by apply elem_of_nil in Hin.
  - split; [done | intros H; by apply elem_of_nil in H].
Qed.

Lemma tagExists_false b (countryCode : string) (tag : Tag) :
  tagExists b countryCode tag = false ↔ tag ∉ LanguageTags b countryCode.
Proof.
  rewrite <- tagExists_spec. by destruct (tagExists b countryCode tag).
Qed.

(** [addTag] on a tag that is already in the list of its country code. *)
Lemma addTag_registered b (cc : string) (tag : Tag) :
  tag ∈ LanguageTags b cc → addTag b cc tag = b.
Proof. intros H. unfold addTag. apply tagExists_spec in H. by rewrite H. Qed.

(** [addTag] on a new tag: the tag goes to the end of the list of its
    country code, the other lists stay, and the matcher is rebuilt from the
    list of that country code. *)
Lemma addTag_new_tags b (cc : string) (tag : Tag) :
  tag ∉ LanguageTags b cc →
  LanguageTags (addTag b cc tag) cc = (LanguageTags b cc ++ [tag])%list.
Proof.
  intros H. unfold addTag. apply tagExists_false in H. rewrite H.
  unfold LanguageTags. simpl. rewrite lookup_insert_eq. simpl.
  destruct (countryTagPair b); simpl; [done|]. by rewrite lookup_empty.
Qed.

Lemma addTag_other_tags b (cc cc' : string) (tag : Tag) :
  cc ≠ cc' → LanguageTags (addTag b cc tag) cc' = LanguageTags b cc'.
Proof.
  intros Hne. unfold addTag. destruct (tagExists b cc tag); [done|].
  unfold LanguageTags. simpl. rewrite lookup_insert_ne by done.
  destruct (countryTagPair b); simpl; [done|]. by rewrite lookup_empty.
Qed.

Lemma addTag_new_matcher b (cc : string) (tag : Tag) :
  tag ∉ LanguageTags b cc →
  matcher (addTag b cc tag) = Some (NewMatcher (LanguageTags b cc ++ [tag])).
Proof.
  intros H. unfold addTag. apply tagExists_false in H. rewrite H. simpl.
  unfold LanguageTags. destruct (countryTagPair b); simpl; [done|].
  by rewrite lookup_empty.
Qed.

Lemma addTag_messageTemplates b (cc : string) (tag : Tag) :
  messageTemplates (addTag b cc tag) = messageTemplates b.
Proof. unfold addTag. by destruct (tagExists b cc tag). Qed.

Lemma addTag_pluralRules b (cc : string) (tag : Tag) :
  pluralRules (addTag b cc tag) = pluralRules b.
Proof. unfold addTag. by destruct (tagExists b cc tag). Qed.

Lemma addTag_defaultLanguage b (cc : string) (tag : Tag) :
  defaultLanguage (addTag b cc tag) = defaultLanguage b.
Proof. unfold addTag. by destruct (tagExists b cc tag). Qed.

Lemma addTag_elem b (cc : string) (tag : Tag) :
  tag ∈ LanguageTags (addTag b cc tag) cc.
Proof.
  destruct (decide (tag ∈ LanguageTags b cc)) as [Hin|Hnin].
  - by rewrite addTag_registered.
  - rewrite addTag_new_tags by done. apply elem_of_app. right. by apply list_elem_of_singleton.
Qed.

(** What [addTag] registers is its own pair. *)
Lemma addTag_elem_inv b (cc c : string) (tag t : Tag) :
  t ∈ LanguageTags (addTag b cc tag) c →
  t ∈ LanguageTags b c ∨ (c = cc ∧ t = tag).
Proof.
  destruct (decide (cc = c)) as [->|Hne].
  - destruct (decide (tag ∈ LanguageTags b c)) as [Hin|Hnin].
    + rewrite addTag_registered by done. by left.
    + rewrite addTag_new_tags by done. intros [H|H]%elem_of_app; [by left|].
      apply list_elem_of_singleton in H. by right.
  - rewrite addTag_other_tags by done. by left.
Qed.

Lemma addTag_mono b (cc c : string) (tag t : Tag) :
  t ∈ LanguageTags b c → t ∈ LanguageTags (addTag b cc tag) c.
Proof.
  intros H. destruct (decide (cc = c)) as [->|Hne].
  - destruct (decide (tag ∈ LanguageTags b c)) as [Hin|Hnin].
    + by rewrite addTag_registered.
    + rewrite addTag_new_tags by done. apply elem_of_app. by left.
  - by rewrite addTag_other_tags.
Qed.

Lemma storeTemplate_present (key : string) b (m : Message) mts ts :
  messageTemplates b = Some mts → mts !! key = Some ts →
  storeTemplate NewMessageTemplate key b m =
    set_messageTemplates b (Some (<[key := <[ID m := NewMessageTemplate m]> ts]> mts)).
Proof.
  intros Hm Hk. unfold storeTemplate. rewrite Hm. simpl. do 2 f_equal.
  apply map_eq. intros k. rewrite lookup_alter, lookup_insert.
  destruct (decide (key = k)) as [->|]; [by rewrite Hk | done].
Qed.

(** The loop of [AddMessages] writes into the inner map of [key] only. *)
Lemma AddMessages_loop (key : string) (messages : list Message) :
  ∀ b mts ts,
    messageTemplates b = Some mts → mts !! key = Some ts →
    foldl (storeTemplate NewMessageTemplate key) b messages =
      set_messageTemplates b (Some (<[key := storeAll NewMessageTemplate ts messages]> mts)).
Proof.
  induction messages as [|m ms IH]; intros b mts ts Hm Hk; simpl.
  - unfold storeAll. simpl. rewrite insert_id by done. destruct b; simpl in *. by subst.
  - erewrite storeTemplate_present by done.
    erewrite IH; [| reflexivity | apply lookup_insert_eq].
    unfold set_messageTemplates. simpl. by rewrite insert_insert_eq.
Qed.

(** The template stored under [id] once the loop has run: that of the last
    message with this ID, or the one that was there. *)
Lemma storeAll_lookup ts (messages : list Message) (id : string) :
  storeAll NewMessageTemplate ts messages !! id =
    match last (filter (λ m, ID m = id) messages) with
    | Some m => Some (NewMessageTemplate m)
    | None => ts !! id
    end.
Proof.
  induction messages as [|m ms IH] using rev_ind; [done|].
  unfold storeAll in *. rewrite foldl_app. simpl. rewrite filter_app.
  destruct (decide (ID m = id)) as [Heq|Hne].
  - rewrite (filter_cons_True _ m []) by done. rewrite filter_nil, last_snoc.
    by rewrite Heq, lookup_insert_eq.
  - rewrite (filter_cons_False _ m []) by done. rewrite filter_nil, app_nil_r.
    rewrite lookup_insert_ne by done. apply IH.
Qed.

Lemma addTag_set_messageTemplates b v (cc : string) (tag : Tag) :
  addTag (set_messageTemplates b v) cc tag = set_messageTemplates (addTag b cc tag) v.
Proof.
  unfold addTag, tagExists. simpl.
  by destruct (countryTagPair b) as [ctp|]; simpl; [destruct (existsb _ _)|].
Qed.

(** A successful [AddMessages], in one step. *)
Lemma AddMessages_success b (cc : string) (tag : Tag)
    (messages : list Message) :
  is_Some (Rules_Rule (pluralRules b) tag) →
  AddMessages NewMessageTemplate b cc tag messages =
    (set_messageTemplates (afterAddTag b cc tag)
       (Some (<[messageTemplateKey cc tag :=
                 storeAll NewMessageTemplate (default ∅ (templatesAt b (messageTemplateKey cc tag))) messages]>
                (default ∅ (messageTemplates b)))),
     None).
Proof.
  intros [r Hr]. unfold AddMessages, afterAddTag. rewrite Hr.
  set (key := messageTemplateKey cc tag). f_equal.
  unfold templatesAt.
  destruct (messageTemplates b) as [mts|] eqn:Hm; simpl.
  - rewrite Hm. destruct (mts !! key) as [ts|] eqn:Hk; simpl.
    + by erewrite AddMessages_loop.
    + rewrite addTag_set_messageTemplates.
      erewrite AddMessages_loop; [| reflexivity | apply lookup_insert_eq].
      unfold set_messageTemplates. simpl. by rewrite insert_insert_eq.
  - rewrite lookup_empty. rewrite !addTag_set_messageTemplates.
    erewrite AddMessages_loop; [| reflexivity | by rewrite lookup_insert_eq].
    unfold set_messageTemplates. simpl. by rewrite insert_insert_eq.
Qed.

(** When the loop of [AddMessages] starts, the inner map of the key
    exists. *)
Lemma AddMessages_loop_key b (cc : string) (tag : Tag) :
  let key := messageTemplateKey cc tag in
  let b1 := match messageTemplates b with
            | None => set_messageTemplates b (Some ∅)
            | Some _ => b
            end in
  let b2 := match templatesAt b1 key with
            | None => addTag (set_messageTemplates b1 (<[key := ∅]> <$> messageTemplates b1)) cc tag
            | Some _ => b1
            end in
  is_Some (templatesAt b2 key).
Proof.
  simpl. unfold templatesAt.
  destruct (messageTemplates b) as [mts|] eqn:Hm; simpl.
  - rewrite Hm. destruct (mts !! messageTemplateKey cc tag) eqn:Hk.
    + rewrite Hm. eauto.
    + rewrite addTag_messageTemplates. simpl. rewrite lookup_insert_eq. eauto.
  - rewrite lookup_empty, addTag_messageTemplates. simpl.
    rewrite lookup_insert_eq. eauto.
Qed.

Lemma AddMessages_failure b (cc : string) (tag : Tag)
    (messages : list Message) :
  Rules_Rule (pluralRules b) tag = None →
  AddMessages NewMessageTemplate b cc tag messages = (b, Some (noPluralRuleError tag)).
Proof. intros H. unfold AddMessages. by rewrite H. Qed.

Lemma AddMessages_pluralRules b (cc : string) (tag : Tag)
    (messages : list Message) :
  pluralRules (AddMessages NewMessageTemplate b cc tag messages).1 = pluralRules b.
Proof.
  destruct (Rules_Rule (pluralRules b) tag) eqn:Hr.
  - rewrite AddMessages_success by eauto. simpl. unfold afterAddTag.
    destruct (templatesAt _ _); [done | apply addTag_pluralRules].
  - by rewrite AddMessages_failure.
Qed.

Lemma AddMessages_tags b (cc c : string) (tag : Tag)
    (messages : list Message) :
  is_Some (Rules_Rule (pluralRules b) tag) →
  LanguageTags (AddMessages NewMessageTemplate b cc tag messages).1 c =
    LanguageTags (afterAddTag b cc tag) c.
Proof. intros H. by rewrite AddMessages_success. Qed.

Lemma AddMessages_matcher b (cc : string) (tag : Tag)
    (messages : list Message) :
  is_Some (Rules_Rule (pluralRules b) tag) →
  matcher (AddMessages NewMessageTemplate b cc tag messages).1 = matcher (afterAddTag b cc tag).
Proof. intros H. by rewrite AddMessages_success. Qed.

Lemma AddMessages_templatesAt b (cc : string) (tag : Tag)
    (messages : list Message) (k : string) :
  is_Some (Rules_Rule (pluralRules b) tag) →
  templatesAt (AddMessages NewMessageTemplate b cc tag messages).1 k =
    if decide (messageTemplateKey cc tag = k)
    then Some (storeAll NewMessageTemplate (default ∅ (templatesAt b k)) messages)
    else templatesAt b k.
Proof.
  intros H. rewrite AddMessages_success by done. unfold templatesAt at 1. simpl.
  rewrite lookup_insert. destruct (decide (messageTemplateKey cc tag = k)) as [->|]; [done|].
  unfold templatesAt. destruct (messageTemplates b); simpl; [done|]. by rewrite lookup_empty.
Qed.

(** What a lookup finds after a successful [AddMessages]. *)
Lemma getMessageTemplate_AddMessages b (cc : string) (tag : Tag)
    (messages : list Message) (tag' : Tag) (id cc' : string) :
  is_Some (Rules_Rule (pluralRules b) tag) →
  getMessageTemplate (AddMessages NewMessageTemplate b cc tag messages).1 tag' id cc' =
    if decide (messageTemplateKey cc tag = messageTemplateKey cc' tag')
    then match last (filter (λ m, ID m = id) messages) with
         | Some m => NewMessageTemplate m
         | None => getMessageTemplate b tag' id cc'
         end
    else getMessageTemplate b tag' id cc'.
Proof.
  intros H. unfold getMessageTemplate. rewrite AddMessages_templatesAt by done.
  destruct (decide _) as [Heq|Hne]; [|done].
  rewrite storeAll_lookup. destruct (last _); [done|].
  destruct (templatesAt b _); simpl; [done|]. by rewrite lookup_empty.
Qed.

Lemma storeAll_idemp ts (messages : list Message) :
  storeAll NewMessageTemplate (storeAll NewMessageTemplate ts messages) messages =
    storeAll NewMessageTemplate ts messages.
Proof.
  apply map_eq. intros id. rewrite !storeAll_lookup.
  by destruct (last _).
Qed.

(** ** AddMessages: failure *)

(** C4.  [AddMessages] is atomic on failure: when no plural rule is
    registered for the tag it returns the error "no plural rule registered
    for <tag>" and the bundle it leaves is the bundle it was given, in all
    its fields; and whenever it returns an error the bundle is unchanged. *)
Theorem AddMessages_atomic_on_failure b (cc : string) (tag : Tag)
    (messages : list Message) :
  (Rules_Rule (pluralRules b) tag = None →
     AddMessages NewMessageTemplate b cc tag messages = (b, Some (noPluralRuleError tag))) ∧
  (∀ e, (AddMessages NewMessageTemplate b cc tag messages).2 = Some e →
     (AddMessages NewMessageTemplate b cc tag messages).1 = b ∧
     Rules_Rule (pluralRules b) tag = None).
Proof.
  split; [apply AddMessages_failure|].
  intros e He. destruct (Rules_Rule (pluralRules b) tag) eqn:Hr.
  - rewrite AddMessages_success in He by eauto. discriminate.
  - by rewrite AddMessages_failure.
Qed.

(** ** AddMessages: last write wins *)

(** C5.  When the tag has a plural rule: after [AddMessages] the template
    found under an ID is that of the last message of the call with this ID
    (and the one found before the call when the call has none), so adding a
    message for an ID that is already stored replaces its template by the
    one of the last add; adding the same messages a second time leaves the
    bundle as the first add left it; and the IDs stored for one pair are
    pairwise distinct. *)
Theorem AddMessages_last_write_wins b (cc : string) (tag : Tag) :
  is_Some (Rules_Rule (pluralRules b) tag) →
  (∀ messages id,
     getMessageTemplate (AddMessages NewMessageTemplate b cc tag messages).1 tag id cc =
       match last (filter (λ m, ID m = id) messages) with
       | Some m => NewMessageTemplate m
       | None => getMessageTemplate b tag id cc
       end) ∧
  (∀ m1 m2, ID m1 = ID m2 →
     let b1 := (AddMessages NewMessageTemplate b cc tag [m1]).1 in
     let b2 := (AddMessages NewMessageTemplate b1 cc tag [m2]).1 in
     getMessageTemplate b2 tag (ID m2) cc = NewMessageTemplate m2) ∧
  (∀ messages,
     let b1 := (AddMessages NewMessageTemplate b cc tag messages).1 in
     AddMessages NewMessageTemplate b1 cc tag messages = (b1, None)) ∧
  (∀ messages ts,
     templatesAt (AddMessages NewMessageTemplate b cc tag messages).1
       (messageTemplateKey cc tag) = Some ts →
     NoDup (map_to_list ts).*1).
Proof.
  intros Hr. split; [|split; [|split]].
  - intros messages id. rewrite getMessageTemplate_AddMessages by done.
    by rewrite decide_True.
  - intros m1 m2 Hid b1 b2. unfold b2.
    assert (Hr1 : is_Some (Rules_Rule (pluralRules b1) tag)).
    { unfold b1. by rewrite AddMessages_pluralRules. }
    rewrite getMessageTemplate_AddMessages by done.
    rewrite decide_True by done. simpl.
    rewrite (filter_cons_True _ m2 []) by done. by rewrite filter_nil.
  - intros messages b1.
    assert (Hr1 : is_Some (Rules_Rule (pluralRules b1) tag)).
    { unfold b1. by rewrite AddMessages_pluralRules. }
    rewrite (AddMessages_success b1) by done. f_equal.
    assert (Hk : templatesAt b1 (messageTemplateKey cc tag) =
                 Some (storeAll NewMessageTemplate
                         (default ∅ (templatesAt b (messageTemplateKey cc tag))) messages)).
    { unfold b1. rewrite AddMessages_templatesAt by done. by rewrite decide_True. }
    unfold afterAddTag. rewrite Hk. simpl. rewrite storeAll_idemp.
    clear Hk Hr1. subst b1. rewrite AddMessages_success by done. simpl.
    unfold set_messageTemplates. simpl. by rewrite insert_insert_eq.
  - intros messages ts _. apply NoDup_fst_map_to_list.
Qed.

(** ** NewBundle: the plural rules *)

Lemma NewBundle_pluralRules (cc : string) (dl : Tag) :
  pluralRules (NewBundle (MessageTemplate := MessageTemplate) DefaultRules cc dl) =
    Rules_set DefaultRules artTag (Rules_Rule DefaultRules English).
Proof. unfold NewBundle. by rewrite addTag_pluralRules. Qed.

(** C9.  [NewBundle] seeds the plural rules with the default table and
    stores under "art" the rule that the default table gives for English:
    every other tag keeps its default entry, and when the default table has
    a rule for English, the lookup of "art" in the new bundle succeeds and
    returns that rule, which is also what the lookup of English returns. *)
Theorem NewBundle_art_rule (cc : string) (dl : Tag) :
  is_Some (Rules_Rule DefaultRules English) →
  let b := NewBundle (MessageTemplate := MessageTemplate) DefaultRules cc dl in
  (∀ t, t ≠ artTag → pluralRules b !! t = DefaultRules !! t) ∧
  is_Some (Rules_Rule (pluralRules b) artTag) ∧
  Rules_Rule (pluralRules b) artTag = Rules_Rule DefaultRules English ∧
  Rules_Rule (pluralRules b) artTag = Rules_Rule (pluralRules b) English.
Proof.
  intros [r Hr] b. unfold b. rewrite NewBundle_pluralRules, Hr. simpl.
  assert (Hart : Rules_Rule (<[artTag := r]> DefaultRules) artTag = Some r).
  { unfold Rules_Rule. by rewrite lookup_insert_eq. }
  assert (Hen : Rules_Rule (<[artTag := r]> DefaultRules) English = Some r).
  { rewrite <- Hr. unfold Rules_Rule. change (base English) with English.
    by rewrite lookup_insert_ne by discriminate. }
  split; [|split; [|split]].
  - intros t Ht. by rewrite lookup_insert_ne by done.
  - rewrite Hart. eauto.
  - done.
  - by rewrite Hart, Hen.
Qed.

(** ** AddMessages: the tag lists and the matcher *)

Lemma afterAddTag_unseen b (cc : string) (tag : Tag) :
  unseen b cc tag → afterAddTag b cc tag = addTag b cc tag.
Proof. intros [Hk _]. unfold afterAddTag. by rewrite Hk. Qed.

Lemma afterAddTag_seen b (cc : string) (tag : Tag) :
  ¬ unseen b cc tag → afterAddTag b cc tag = b.
Proof.
  intros Hn. unfold afterAddTag.
  destruct (templatesAt b (messageTemplateKey cc tag)) eqn:Hk; [done|].
  apply addTag_registered.
  destruct (decide (tag ∈ LanguageTags b cc)); [done|]. destruct Hn. by split.
Qed.

Lemma NewBundle_tags (cc c : string) (dl : Tag) :
  LanguageTags (NewBundle (MessageTemplate := MessageTemplate) DefaultRules cc dl) c =
    if decide (cc = c) then [dl] else [].
Proof.
  unfold NewBundle. destruct (decide (cc = c)) as [->|Hne].
  - rewrite addTag_new_tags; [done|]. unfold LanguageTags. simpl. apply not_elem_of_nil.
  - by rewrite addTag_other_tags.
Qed.

Lemma NewBundle_matcher (cc : string) (dl : Tag) :
  matcher (NewBundle (MessageTemplate := MessageTemplate) DefaultRules cc dl) =
    Some (NewMatcher [dl]).
Proof.
  unfold NewBundle. rewrite addTag_new_matcher; [done|].
  unfold LanguageTags. simpl. apply not_elem_of_nil.
Qed.

Lemma NewBundle_templatesAt (cc : string) (dl : Tag) (k : string) :
  templatesAt (NewBundle (MessageTemplate := MessageTemplate) DefaultRules cc dl) k = None.
Proof. unfold templatesAt, NewBundle. by rewrite addTag_messageTemplates. Qed.

(** The case in which [AddMessages] registers its tag. *)
Lemma AddMessages_unseen b (cc : string) (tag : Tag) (messages : list Message) :
  is_Some (Rules_Rule (pluralRules b) tag) →
  unseen b cc tag →
  let b' := (AddMessages NewMessageTemplate b cc tag messages).1 in
  LanguageTags b' cc = (LanguageTags b cc ++ [tag])%list ∧
  (∀ c, c ≠ cc → LanguageTags b' c = LanguageTags b c) ∧
  matcher b' = Some (NewMatcher (LanguageTags b' cc)).
Proof.
  intros Hr Hu b'. assert (Hnin : tag ∉ LanguageTags b cc) by apply Hu.
  assert (Htags : LanguageTags b' cc = (LanguageTags b cc ++ [tag])%list).
  { unfold b'. rewrite AddMessages_tags, afterAddTag_unseen by done.
    by apply addTag_new_tags. }
  split; [done|]. split.
  - intros c Hc. unfold b'. rewrite AddMessages_tags, afterAddTag_unseen by done.
    by apply addTag_other_tags.
  - rewrite Htags. unfold b'. rewrite AddMessages_matcher, afterAddTag_unseen by done.
    by apply addTag_new_matcher.
Qed.

(** Every other case. *)
Lemma AddMessages_seen b (cc : string) (tag : Tag) (messages : list Message) :
  is_Some (Rules_Rule (pluralRules b) tag) →
  ¬ unseen b cc tag →
  let b' := (AddMessages NewMessageTemplate b cc tag messages).1 in
  countryTagPair b' = countryTagPair b ∧ matcher b' = matcher b.
Proof.
  intros Hr Hn b'. unfold b'. rewrite AddMessages_success by done. simpl.
  by rewrite afterAddTag_seen.
Qed.

(** C7, as the code has it.  A successful [AddMessages] appends the tag to
    the list of its country code and rebuilds the matcher from that list
    exactly when no template map is stored yet under the key of the pair
    and the tag is not yet in the list (as the default language of
    [NewBundle] is); in every other case the tag lists and the matcher are
    left as they were. *)
Theorem AddMessages_registers_unseen b (cc : string) (tag : Tag)
    (messages : list Message) :
  is_Some (Rules_Rule (pluralRules b) tag) →
  let b' := (AddMessages NewMessageTemplate b cc tag messages).1 in
  (unseen b cc tag →
     LanguageTags b' cc = (LanguageTags b cc ++ [tag])%list ∧
     (∀ c, c ≠ cc → LanguageTags b' c = LanguageTags b c) ∧
     countryTagPair b' ≠ countryTagPair b ∧
     matcher b' = Some (NewMatcher (LanguageTags b' cc))) ∧
  (¬ unseen b cc tag →
     countryTagPair b' = countryTagPair b ∧ matcher b' = matcher b).
Proof.
  intros Hr b'. split.
  - intros Hu.
    destruct (AddMessages_unseen b cc tag messages Hr Hu) as (Htags & Hoth & Hm).
    fold b' in Htags, Hoth, Hm. split; [done|]. split; [done|]. split; [|done].
    intros Heq. assert (Hl : LanguageTags b' cc = LanguageTags b cc).
    { unfold LanguageTags. by rewrite Heq. }
    rewrite Htags in Hl. apply (f_equal length) in Hl.
    rewrite length_app in Hl. simpl in Hl. lia.
  - intros Hn. by apply AddMessages_seen.
Qed.

(** C10, as the code has it.  With a plural rule for the tag, [AddMessages]
    with no message returns no error; when no template map is stored yet
    under the key of the pair it stores an empty one, the tag is then in
    the list of its country code, every lookup under the pair is absent,
    and, the tag being new in the list, the matcher is rebuilt from the
    list that now holds it. *)
Theorem AddMessages_empty_registers b (cc : string) (tag : Tag) :
  is_Some (Rules_Rule (pluralRules b) tag) →
  let r := AddMessages NewMessageTemplate b cc tag [] in
  r.2 = None ∧
  (templatesAt b (messageTemplateKey cc tag) = None →
     templatesAt r.1 (messageTemplateKey cc tag) = Some ∅ ∧
     tag ∈ LanguageTags r.1 cc ∧
     (∀ id, getMessageTemplate r.1 tag id cc = None) ∧
     (tag ∉ LanguageTags b cc →
        matcher r.1 = Some (NewMatcher (LanguageTags r.1 cc)) ∧
        last (LanguageTags r.1 cc) = Some tag)).
Proof.
  intros Hr r. split.
  { unfold r. by rewrite AddMessages_success. }
  intros Hk. split; [|split; [|split]].
  - unfold r. rewrite AddMessages_templatesAt by done.
    rewrite decide_True by done. by rewrite Hk.
  - unfold r. rewrite AddMessages_tags by done. unfold afterAddTag. rewrite Hk.
    apply addTag_elem.
  - intros id. unfold r. rewrite getMessageTemplate_AddMessages by done.
    rewrite decide_True by done. simpl. unfold getMessageTemplate. by rewrite Hk.
  - intros Hnin.
    destruct (AddMessages_unseen b cc tag [] Hr (conj Hk Hnin)) as (Ht & _ & Hm).
    split; [done|]. fold r in Ht. rewrite Ht. apply last_snoc.
Qed.

(** ** Sequences of calls *)

Lemma step_tags b (call : Call) (c : string) :
  LanguageTags (step NewMessageTemplate b call) c = LanguageTags b c ∨
  (callCountry call = c ∧ (callTag call ∉ LanguageTags b c) ∧
   LanguageTags (step NewMessageTemplate b call) c =
     (LanguageTags b c ++ [callTag call])%list).
Proof.
  unfold step. destruct call as [cc tag messages]. simpl.
  destruct (Rules_Rule (pluralRules b) tag) eqn:Hr.
  - rewrite AddMessages_tags by eauto. unfold afterAddTag.
    destruct (templatesAt b _); [by left|].
    destruct (decide (cc = c)) as [->|Hne].
    + destruct (decide (tag ∈ LanguageTags b c)) as [Hin|Hnin].
      * left. by rewrite addTag_registered.
      * right. by rewrite addTag_new_tags.
    + left. by apply addTag_other_tags.
  - rewrite AddMessages_failure by done. by left.
Qed.

Lemma step_NoDup b (call : Call) (c : string) :
  NoDup (LanguageTags b c) → NoDup (LanguageTags (step NewMessageTemplate b call) c).
Proof.
  intros Hnd. destruct (step_tags b call c) as [->|(_ & Hnin & ->)]; [done|].
  apply NoDup_app. split; [done|]. split; [|apply NoDup_singleton].
  intros x Hx Hx'. apply list_elem_of_singleton in Hx'. by subst.
Qed.

Lemma step_mono b (call : Call) (c : string) (t : Tag) :
  t ∈ LanguageTags b c → t ∈ LanguageTags (step NewMessageTemplate b call) c.
Proof.
  intros H. destruct (step_tags b call c) as [->|(_ & _ & ->)]; [done|].
  apply elem_of_app. by left.
Qed.

Lemma step_pluralRules b (call : Call) :
  pluralRules (step NewMessageTemplate b call) = pluralRules b.
Proof. apply AddMessages_pluralRules. Qed.

Lemma run_snoc b (calls : list Call) (call : Call) :
  run NewMessageTemplate b (calls ++ [call]) =
    step NewMessageTemplate (run NewMessageTemplate b calls) call.
Proof. unfold run. by rewrite foldl_app. Qed.

Lemma run_pluralRules b (calls : list Call) :
  pluralRules (run NewMessageTemplate b calls) = pluralRules b.
Proof.
  induction calls as [|call calls IH] using rev_ind; [done|].
  by rewrite run_snoc, step_pluralRules.
Qed.

Lemma run_NoDup b (calls : list Call) (c : string) :
  NoDup (LanguageTags b c) → NoDup (LanguageTags (run NewMessageTemplate b calls) c).
Proof.
  intros H. induction calls as [|call calls IH] using rev_ind; [done|].
  rewrite run_snoc. by apply step_NoDup.
Qed.

Lemma run_prefix b (calls : list Call) (c : string) :
  LanguageTags b c `prefix_of` LanguageTags (run NewMessageTemplate b calls) c.
Proof.
  induction calls as [|call calls IH] using rev_ind; [done|].
  rewrite run_snoc.
  destruct (step_tags (run NewMessageTemplate b calls) call c) as [->|(_ & _ & ->)];
    [done|].
  by apply prefix_app_r.
Qed.

(** ** What the calls leave behind *)

Lemma step_tags_inv b (call : Call) (c : string) (t : Tag) :
  t ∈ LanguageTags (step NewMessageTemplate b call) c →
  t ∈ LanguageTags b c ∨
  (callCountry call = c ∧ callTag call = t ∧
   is_Some (Rules_Rule (pluralRules b) (callTag call))).
Proof.
  unfold step. destruct call as [cc tag messages]. simpl.
  destruct (Rules_Rule (pluralRules b) tag) eqn:Hr.
  - rewrite AddMessages_tags by eauto. unfold afterAddTag.
    destruct (templatesAt b _); [by left|].
    intros [H|[-> ->]]%addTag_elem_inv; [by left|]. right. eauto.
  - rewrite AddMessages_failure by done. by left.
Qed.

Lemma step_templatesAt_mono b (call : Call) (k : string) :
  is_Some (templatesAt b k) → is_Some (templatesAt (step NewMessageTemplate b call) k).
Proof.
  intros H. unfold step.
  destruct (Rules_Rule (pluralRules b) (callTag call)) eqn:Hr.
  - rewrite AddMessages_templatesAt by eauto. destruct (decide _); eauto.
  - by rewrite AddMessages_failure.
Qed.

Lemma step_templatesAt_inv b (call : Call) (k : string) :
  is_Some (templatesAt (step NewMessageTemplate b call) k) →
  is_Some (templatesAt b k) ∨
  (callKey call = k ∧ templatesAt b k = None ∧
   is_Some (Rules_Rule (pluralRules b) (callTag call))).
Proof.
  unfold step.
  destruct (Rules_Rule (pluralRules b) (callTag call)) eqn:Hr.
  - rewrite AddMessages_templatesAt by eauto.
    destruct (decide _) as [Hk|Hk]; [|by left].
    intros _. destruct (templatesAt b k) eqn:Ht; [left; eauto|]. right. eauto.
  - rewrite AddMessages_failure by done. by left.
Qed.

Lemma step_populates b (call : Call) :
  is_Some (Rules_Rule (pluralRules b) (callTag call)) →
  is_Some (templatesAt (step NewMessageTemplate b call) (callKey call)).
Proof.
  intros H. unfold step. rewrite AddMessages_templatesAt by done.
  unfold callKey. rewrite decide_True by done. eauto.
Qed.

Lemma step_registers b (call : Call) :
  is_Some (Rules_Rule (pluralRules b) (callTag call)) →
  templatesAt b (callKey call) = None →
  callTag call ∈ LanguageTags (step NewMessageTemplate b call) (callCountry call).
Proof.
  intros Hr Hk. unfold step. rewrite AddMessages_tags by done.
  unfold afterAddTag. unfold callKey in Hk. rewrite Hk. apply addTag_elem.
Qed.

(** The state reached from a new bundle, told from the calls made: a tag in
    a list is the default language or was brought by a call for its pair;
    a template map under a key was brought by a call with this key, whose
    pair is in the lists; and every call that returned no error has left a
    template map under its key. *)
Lemma run_invariant (cc0 : string) (dl : Tag) (calls : list Call) :
  let b0 := NewBundle DefaultRules cc0 dl in
  let b := run NewMessageTemplate b0 calls in
  (∀ cc tag, tag ∈ LanguageTags b cc →
     (cc = cc0 ∧ tag = dl) ∨ ∃ c, c ∈ calls ∧ addsFor b0 cc tag c) ∧
  (∀ k, is_Some (templatesAt b k) →
     ∃ c, c ∈ calls ∧ callKey c = k ∧
          is_Some (Rules_Rule (pluralRules b0) (callTag c)) ∧
          callTag c ∈ LanguageTags b (callCountry c)) ∧
  (∀ c, c ∈ calls → is_Some (Rules_Rule (pluralRules b0) (callTag c)) →
     is_Some (templatesAt b (callKey c))).
Proof.
  intros b0. cbv zeta. induction calls as [|call calls IH] using rev_ind.
  - change (run NewMessageTemplate b0 []) with b0. split; [|split].
    + intros cc tag. unfold b0. rewrite NewBundle_tags.
      destruct (decide (cc0 = cc)) as [->|]; [|by intros ?%elem_of_nil].
      intros ->%list_elem_of_singleton. by left.
    + intros k [ts Hts]. unfold b0 in Hts. by rewrite NewBundle_templatesAt in Hts.
    + by intros c ?%elem_of_nil.
  - destruct IH as (I1 & I2 & I3). rewrite run_snoc.
    set (b := run NewMessageTemplate b0 calls) in *.
    assert (Hrules : pluralRules b = pluralRules b0) by apply run_pluralRules.
    split; [|split].
    + intros cc tag [Hin|(Hcc & Htag & Hr)]%step_tags_inv.
      * destruct (I1 cc tag Hin) as [?|(c & Hc & Hadds)]; [by left|].
        right. exists c. split; [|done]. apply elem_of_app. by left.
      * right. exists call. split; [apply elem_of_app; right; by apply list_elem_of_singleton|].
        rewrite Hrules in Hr. subst. by repeat split.
    + intros k [Hk|(Hkey & Hnone & Hr)]%step_templatesAt_inv.
      * destruct (I2 k Hk) as (c & Hc & Hck & Hcr & Hct).
        exists c. split; [apply elem_of_app; by left|]. repeat split; try done.
        by apply step_mono.
      * exists call. split; [apply elem_of_app; right; by apply list_elem_of_singleton|].
        rewrite <- Hkey in Hnone. split; [done|]. split; [by rewrite <- Hrules|].
        by apply step_registers.
    + intros c [Hc| ->%list_elem_of_singleton]%elem_of_app Hr.
      * apply step_templatesAt_mono. by apply I3.
      * apply step_populates. by rewrite Hrules.
Qed.

(** A pair that a call has added is in the lists when no call for another
    pair has its template key. *)
Lemma registered_of_added (cc0 : string) (dl : Tag) (calls : list Call)
    (cc : string) (tag : Tag) :
  let b0 := NewBundle DefaultRules cc0 dl in
  (∀ c, c ∈ calls → callKey c = messageTemplateKey cc tag →
     callCountry c = cc ∧ callTag c = tag) →
  (∃ c, c ∈ calls ∧ addsFor b0 cc tag c) →
  tag ∈ LanguageTags (run NewMessageTemplate b0 calls) cc.
Proof.
  intros b0 Hclash (c & Hc & Hcc & Htag & Hr).
  destruct (run_invariant cc0 dl calls) as (_ & I2 & I3). fold b0 in I2, I3.
  subst. destruct (I2 (callKey c)) as (c' & Hc' & Hk & _ & Hreg); [by apply I3|].
  by destruct (Hclash c' Hc' Hk) as [<- <-].
Qed.

Lemma registered_of_constructed (cc0 : string) (dl : Tag) (calls : list Call) :
  dl ∈ LanguageTags (run NewMessageTemplate (NewBundle DefaultRules cc0 dl) calls) cc0.
Proof.
  eapply elem_of_prefix; [|apply run_prefix].
  rewrite NewBundle_tags, decide_True by done. by apply list_elem_of_singleton.
Qed.

(** C2, as the code has it.  In a bundle obtained from [NewBundle] by calls
    of [AddMessages], a tag is in the list of a country code only if the
    pair is the one given to [NewBundle] or a call for the pair has
    returned no error, with whatever messages; and it is in the list if so,
    provided that no call for another pair has the template key of this
    pair. *)
Theorem registered_iff_constructed_or_added (cc0 : string) (dl : Tag)
    (calls : list Call) (cc : string) (tag : Tag) :
  let b0 := NewBundle DefaultRules cc0 dl in
  let b := run NewMessageTemplate b0 calls in
  (tag ∈ LanguageTags b cc →
     (cc = cc0 ∧ tag = dl) ∨ ∃ c, c ∈ calls ∧ addsFor b0 cc tag c) ∧
  ((∀ c, c ∈ calls → callKey c = messageTemplateKey cc tag →
      callCountry c = cc ∧ callTag c = tag) →
   (cc = cc0 ∧ tag = dl) ∨ (∃ c, c ∈ calls ∧ addsFor b0 cc tag c) →
   tag ∈ LanguageTags b cc).
Proof.
  intros b0 b. split.
  - apply (run_invariant cc0 dl calls).
  - intros Hclash [[-> ->]|Hadd].
    + apply registered_of_constructed.
    + by apply registered_of_added.
Qed.

(** A lookup under a key that no successful call has used finds nothing. *)
Lemma getMessageTemplate_unused_key (cc0 : string) (dl : Tag)
    (calls : list Call) (cc : string) (tag : Tag) (id : string) :
  let b0 := NewBundle DefaultRules cc0 dl in
  (∀ c, c ∈ calls → is_Some (Rules_Rule (pluralRules b0) (callTag c)) →
     callKey c ≠ messageTemplateKey cc tag) →
  getMessageTemplate (run NewMessageTemplate b0 calls) tag id cc = None.
Proof.
  intros b0 Hfree. destruct (run_invariant cc0 dl calls) as (_ & I2 & _).
  unfold getMessageTemplate.
  destruct (templatesAt _ (messageTemplateKey cc tag)) eqn:Hk; [|done].
  destruct (I2 (messageTemplateKey cc tag)) as (c & Hc & Hck & Hr & _).
  { fold b0. rewrite Hk. eauto. }
  by destruct (Hfree c Hc Hr).
Qed.

(** The lookup reads the bundle and nothing else: where no template map is
    stored under the key, and where the map has no entry for the ID, it is
    absent. *)
Lemma getMessageTemplate_absent b (tag : Tag) (id cc : string) :
  templatesAt b (messageTemplateKey cc tag) = None →
  getMessageTemplate b tag id cc = None.
Proof. intros H. unfold getMessageTemplate. by rewrite H. Qed.

(** ** The template key *)

(** With one country code, distinct tags have distinct keys. *)
Lemma messageTemplateKey_inj_tag (cc : string) (t1 t2 : Tag) :
  messageTemplateKey cc t1 = messageTemplateKey cc t2 → t1 = t2.
Proof.
  unfold messageTemplateKey. induction cc as [|a cc IH]; simpl; intros H.
  - by injection H.
  - injection H as H. by apply IH.
Qed.

(** Country codes without a hyphen give distinct keys to distinct pairs. *)
Lemma messageTemplateKey_inj (cc1 cc2 : string) (t1 t2 : Tag) :
  hasHyphen cc1 = false → hasHyphen cc2 = false →
  messageTemplateKey cc1 t1 = messageTemplateKey cc2 t2 → cc1 = cc2 ∧ t1 = t2.
Proof.
  unfold messageTemplateKey. revert cc2.
  induction cc1 as [|a cc1 IH]; intros [|a' cc2]; simpl; intros H1 H2 H.
  - by injection H.
  - injection H as <- _. by rewrite Ascii.eqb_refl in H2.
  - injection H as -> _. by rewrite Ascii.eqb_refl in H1.
  - injection H as -> H. apply orb_false_iff in H1 as [_ H1], H2 as [_ H2].
    destruct (IH cc2 H1 H2 H) as [-> ->]. done.
Qed.

(** X13.  For country codes without a hyphen, the lists hold the pair of
    [NewBundle] and the pairs of the calls that returned no error, and
    nothing else. *)
Lemma registered_iff_without_hyphen (cc0 : string) (dl : Tag)
    (calls : list Call) (cc : string) (tag : Tag) :
  let b0 := NewBundle DefaultRules cc0 dl in
  hasHyphen cc = false →
  Forall (λ c, hasHyphen (callCountry c) = false) calls →
  tag ∈ LanguageTags (run NewMessageTemplate b0 calls) cc ↔
    (cc = cc0 ∧ tag = dl) ∨ ∃ c, c ∈ calls ∧ addsFor b0 cc tag c.
Proof.
  intros b0 Hcc Hcalls. split; [apply (run_invariant cc0 dl calls)|].
  intros [[-> ->]|Hadd]; [apply registered_of_constructed|].
  apply registered_of_added; [|done].
  intros c Hc Hk. rewrite Forall_forall in Hcalls.
  by apply messageTemplateKey_inj; [apply Hcalls | |].
Qed.

(** X14.  For country codes without a hyphen, a lookup under a pair for
    which no call has returned without error finds nothing. *)
Lemma getMessageTemplate_never_added (cc0 : string) (dl : Tag)
    (calls : list Call) (cc : string) (tag : Tag) (id : string) :
  let b0 := NewBundle DefaultRules cc0 dl in
  hasHyphen cc = false →
  Forall (λ c, hasHyphen (callCountry c) = false) calls →
  ¬ (∃ c, c ∈ calls ∧ addsFor b0 cc tag c) →
  getMessageTemplate (run NewMessageTemplate b0 calls) tag id cc = None.
Proof.
  intros b0 Hcc Hcalls Hnone. apply getMessageTemplate_unused_key.
  intros c Hc Hr Hk. rewrite Forall_forall in Hcalls.
  apply messageTemplateKey_inj in Hk as [Hk1 Hk2]; [|by apply Hcalls|done].
  apply Hnone. exists c. split; [done|]. unfold addsFor. by subst.
Qed.

(** ** The matcher *)

Lemma unseen_dec b (cc : string) (tag : Tag) :
  unseen b cc tag ∨ ¬ unseen b cc tag.
Proof.
  unfold unseen. destruct (templatesAt b (messageTemplateKey cc tag)).
  - right. by intros [? _].
  - destruct (decide (tag ∈ LanguageTags b cc)); [right | left]; [|done].
    by intros [_ ?].
Qed.

(** The tag lists and the matcher after one successful call. *)
Lemma AddMessages_one b (cc : string) (X : Tag) (messages : list Message) :
  is_Some (Rules_Rule (pluralRules b) X) →
  let b' := (AddMessages NewMessageTemplate b cc X messages).1 in
  (unseen b cc X →
     (∀ c, LanguageTags b' c =
             if decide (c = cc) then (LanguageTags b cc ++ [X])%list else LanguageTags b c) ∧
     matcher b' = Some (NewMatcher (LanguageTags b cc ++ [X]))) ∧
  (¬ unseen b cc X →
     (∀ c, LanguageTags b' c = LanguageTags b c) ∧ matcher b' = matcher b).
Proof.
  intros Hr b'. split.
  - intros Hu. destruct (AddMessages_unseen b cc X messages Hr Hu) as (Ht & Ho & Hm).
    fold b' in Ht, Ho, Hm. split.
    + intros c. destruct (decide (c = cc)) as [->|Hne]; [done | by apply Ho].
    + by rewrite Hm, Ht.
  - intros Hn. destruct (AddMessages_seen b cc X messages Hr Hn) as [Hc Hm].
    fold b' in Hc, Hm. split; [|done]. intros c. unfold LanguageTags. by rewrite Hc.
Qed.

(** A call for another tag of the same country code does not change
    whether a tag is still to be registered. *)
Lemma unseen_after b (cc : string) (X Y : Tag) (messages : list Message) :
  X ≠ Y → is_Some (Rules_Rule (pluralRules b) X) →
  unseen (AddMessages NewMessageTemplate b cc X messages).1 cc Y ↔ unseen b cc Y.
Proof.
  intros Hne Hr. unfold unseen. rewrite AddMessages_templatesAt by done.
  rewrite decide_False by (by intros ?%messageTemplateKey_inj_tag).
  destruct (AddMessages_one b cc X messages Hr) as [Hu Hs].
  destruct (unseen_dec b cc X) as [HX|HX].
  - destruct (Hu HX) as [Ht _]. rewrite Ht, decide_True by done.
    rewrite elem_of_app, list_elem_of_singleton.
    clear Hu Hs Ht. intuition congruence.
  - destruct (Hs HX) as [Ht _]. by rewrite Ht.
Qed.

(** The tag lists and the matcher after two successful calls for distinct
    tags of one country code: the tags still to be registered are appended
    in the order of the calls, and the matcher is rebuilt when there is
    one. *)
Lemma AddMessages_two b (cc : string) (X Y : Tag) (mX mY : list Message) :
  X ≠ Y →
  is_Some (Rules_Rule (pluralRules b) X) →
  is_Some (Rules_Rule (pluralRules b) Y) →
  let b' := (AddMessages NewMessageTemplate
               (AddMessages NewMessageTemplate b cc X mX).1 cc Y mY).1 in
  ∃ l : list Tag,
    ((unseen b cc X ∧ unseen b cc Y ∧ l = [X; Y]) ∨
     (unseen b cc X ∧ ¬ unseen b cc Y ∧ l = [X]) ∨
     (¬ unseen b cc X ∧ unseen b cc Y ∧ l = [Y]) ∨
     (¬ unseen b cc X ∧ ¬ unseen b cc Y ∧ l = [])) ∧
    (∀ c, LanguageTags b' c =
            if decide (c = cc) then (LanguageTags b cc ++ l)%list else LanguageTags b c) ∧
    matcher b' = match l with
                 | [] => matcher b
                 | _ :: _ => Some (NewMatcher (LanguageTags b cc ++ l))
                 end.
Proof.
  intros Hne HrX HrY b'. set (b1 := (AddMessages NewMessageTemplate b cc X mX).1) in *.
  assert (HrY1 : is_Some (Rules_Rule (pluralRules b1) Y)).
  { unfold b1. by rewrite AddMessages_pluralRules. }
  destruct (AddMessages_one b cc X mX HrX) as [H1u H1s]. fold b1 in H1u, H1s.
  destruct (AddMessages_one b1 cc Y mY HrY1) as [H2u H2s]. fold b' in H2u, H2s.
  pose proof (unseen_after b cc X Y mX Hne HrX) as Htr. fold b1 in Htr.
  destruct (unseen_dec b cc X) as [uX|sX], (unseen_dec b cc Y) as [uY|sY].
  - exists [X; Y]. split; [by left|].
    destruct (H1u uX) as [Ht1 Hm1]. destruct (H2u (proj2 Htr uY)) as [Ht2 Hm2].
    assert (Hcc : LanguageTags b1 cc = (LanguageTags b cc ++ [X])%list).
    { by rewrite Ht1, decide_True. }
    split.
    + intros c. rewrite Ht2. destruct (decide (c = cc)) as [->|Hc].
      * by rewrite Hcc, <- app_assoc.
      * by rewrite Ht1, decide_False.
    + by rewrite Hm2, Hcc, <- app_assoc.
  - exists [X]. split; [right; by left|].
    destruct (H1u uX) as [Ht1 Hm1].
    destruct H2s as [Ht2 Hm2]; [by rewrite Htr|].
    split.
    + intros c. by rewrite Ht2, Ht1.
    + by rewrite Hm2, Hm1.
  - exists [Y]. split; [right; right; by left|].
    destruct (H1s sX) as [Ht1 Hm1]. destruct (H2u (proj2 Htr uY)) as [Ht2 Hm2].
    split.
    + intros c. rewrite Ht2. destruct (decide (c = cc)); by rewrite Ht1.
    + by rewrite Hm2, Ht1.
  - exists []. split; [right; right; by right|].
    destruct (H1s sX) as [Ht1 Hm1].
    destruct H2s as [Ht2 Hm2]; [by rewrite Htr|].
    split.
    + intros c. rewrite Ht2, Ht1, app_nil_r. by destruct (decide (c = cc)) as [->|].
    + by rewrite Hm2, Hm1.
Qed.

Lemma sameSupported_refl (m : option Matcher) : sameSupported m m.
Proof. destruct m; simpl; [reflexivity | exact I]. Qed.

(** C3, as the code has it.  Two successful calls of [AddMessages] for one
    country code, made in either order, leave tag lists that hold the same
    tags and matchers over the same supported tags.  The lists and the
    matchers are equal unless the two tags differ and both are still to be
    registered; in that case each order appends the two tags in the order
    of its calls, and the supported tags of the matcher are in that
    order. *)
Theorem AddMessages_order b (cc : string) (T1 T2 : Tag) (m1 m2 : list Message) :
  is_Some (Rules_Rule (pluralRules b) T1) →
  is_Some (Rules_Rule (pluralRules b) T2) →
  let b12 := (AddMessages NewMessageTemplate
                (AddMessages NewMessageTemplate b cc T1 m1).1 cc T2 m2).1 in
  let b21 := (AddMessages NewMessageTemplate
                (AddMessages NewMessageTemplate b cc T2 m2).1 cc T1 m1).1 in
  (∀ c, LanguageTags b12 c ≡ₚ LanguageTags b21 c) ∧
  sameSupported (matcher b12) (matcher b21) ∧
  (¬ (T1 ≠ T2 ∧ unseen b cc T1 ∧ unseen b cc T2) →
     (∀ c, LanguageTags b12 c = LanguageTags b21 c) ∧ matcher b12 = matcher b21) ∧
  (T1 ≠ T2 → unseen b cc T1 → unseen b cc T2 →
     LanguageTags b12 cc = (LanguageTags b cc ++ [T1; T2])%list ∧
     LanguageTags b21 cc = (LanguageTags b cc ++ [T2; T1])%list ∧
     matcher b12 = Some (NewMatcher (LanguageTags b cc ++ [T1; T2])) ∧
     matcher b21 = Some (NewMatcher (LanguageTags b cc ++ [T2; T1]))).
Proof.
  intros Hr1 Hr2 b12 b21. destruct (decide (T1 = T2)) as [->|Hne].
  - assert (Heq : (∀ c, LanguageTags b12 c = LanguageTags b21 c) ∧ matcher b12 = matcher b21).
    { set (b1 := (AddMessages NewMessageTemplate b cc T2 m1).1) in *.
      set (b2 := (AddMessages NewMessageTemplate b cc T2 m2).1) in *.
      assert (H1 : is_Some (Rules_Rule (pluralRules b1) T2)).
      { unfold b1. by rewrite AddMessages_pluralRules. }
      assert (H2 : is_Some (Rules_Rule (pluralRules b2) T2)).
      { unfold b2. by rewrite AddMessages_pluralRules. }
      destruct (AddMessages_one b1 cc T2 m2 H1) as [_ Hs1].
      destruct (AddMessages_one b2 cc T2 m1 H2) as [_ Hs2].
      destruct Hs1 as [Ht1 Hm1].
      { intros [Hk _]. unfold b1 in Hk. rewrite AddMessages_templatesAt in Hk by done.
        by rewrite decide_True in Hk. }
      destruct Hs2 as [Ht2 Hm2].
      { intros [Hk _]. unfold b2 in Hk. rewrite AddMessages_templatesAt in Hk by done.
        by rewrite decide_True in Hk. }
      fold b12 in Ht1, Hm1. fold b21 in Ht2, Hm2. split.
      - intros c. rewrite Ht1, Ht2. unfold b1, b2. by rewrite !AddMessages_tags.
      - rewrite Hm1, Hm2. unfold b1, b2. by rewrite !AddMessages_matcher. }
    destruct Heq as [Ht Hm]. split; [|split; [|split]].
    + intros c. by rewrite Ht.
    + rewrite Hm. apply sameSupported_refl.
    + done.
    + by intros [].
  - destruct (AddMessages_two b cc T1 T2 m1 m2 Hne Hr1 Hr2) as (l12 & Hc12 & Ht12 & Hm12).
    destruct (AddMessages_two b cc T2 T1 m2 m1 (not_eq_sym Hne) Hr2 Hr1)
      as (l21 & Hc21 & Ht21 & Hm21).
    fold b12 in Ht12, Hm12. fold b21 in Ht21, Hm21.
    assert (Hl : l12 ≡ₚ l21 ∧
                 (¬ (unseen b cc T1 ∧ unseen b cc T2) → l12 = l21) ∧
                 (unseen b cc T1 → unseen b cc T2 → l12 = [T1; T2] ∧ l21 = [T2; T1])).
    { destruct Hc12 as [(?&?&->)|[(?&?&->)|[(?&?&->)|(?&?&->)]]];
      destruct Hc21 as [(?&?&->)|[(?&?&->)|[(?&?&->)|(?&?&->)]]];
      try (exfalso; tauto);
      (split; [first [reflexivity | apply perm_swap] | split; [tauto | tauto]]). }
    destruct Hl as (Hperm & Hsame & Hboth).
    split; [|split; [|split]].
    + intros c. rewrite Ht12, Ht21. destruct (decide (c = cc)); [|done].
      by apply Permutation_app_head.
    + rewrite Hm12, Hm21. destruct l12 as [|x l12], l21 as [|y l21].
      * apply sameSupported_refl.
      * by apply Permutation_nil_l in Hperm.
      * by apply Permutation_nil_r in Hperm.
      * simpl. by apply Permutation_app_head.
    + intros Hn. assert (Heq : l12 = l21) by (apply Hsame; tauto).
      split.
      * intros c. by rewrite Ht12, Ht21, Heq.
      * by rewrite Hm12, Hm21, Heq.
    + intros _ u1 u2. destruct (Hboth u1 u2) as [-> ->].
      by rewrite Ht12, Ht21, Hm12, Hm21, !decide_True.
Qed.

(** In a bundle obtained from [NewBundle] by calls of [AddMessages], the
    supported tags of the matcher are the tag list of one country code. *)
Lemma run_matcher_one_country (cc0 : string) (dl : Tag) (calls : list Call) :
  let b := run NewMessageTemplate (NewBundle DefaultRules cc0 dl) calls in
  ∃ cc, matcher b = Some (NewMatcher (LanguageTags b cc)).
Proof.
  cbv zeta. induction calls as [|call calls IH] using rev_ind.
  - exists cc0. change (run NewMessageTemplate ?b []) with b.
    by rewrite NewBundle_matcher, NewBundle_tags, decide_True.
  - rewrite run_snoc. destruct IH as [cc IH].
    set (b := run NewMessageTemplate (NewBundle DefaultRules cc0 dl) calls) in *.
    unfold step. destruct call as [c tag messages]. simpl.
    destruct (Rules_Rule (pluralRules b) tag) eqn:Hr.
    + destruct (unseen_dec b c tag) as [Hu|Hs].
      * exists c. apply AddMessages_unseen; eauto.
      * exists cc. destruct (AddMessages_seen b c tag messages) as [Hc Hm]; eauto.
        rewrite Hm, IH. unfold LanguageTags. by rewrite Hc.
    + exists cc. by rewrite AddMessages_failure.
Qed.

(** ** The order of the tag lists *)

Lemma firstSeen_snoc (tags : list Tag) (t : Tag) :
  firstSeen (tags ++ [t]) =
    if decide (t ∈ firstSeen tags) then firstSeen tags else (firstSeen tags ++ [t])%list.
Proof. unfold firstSeen. by rewrite foldl_app. Qed.

Lemma firstSeen_singleton (t : Tag) : firstSeen [t] = [t].
Proof. reflexivity. Qed.

(** [firstSeen] keeps every tag once. *)
Lemma firstSeen_elem (tags : list Tag) (t : Tag) : t ∈ firstSeen tags ↔ t ∈ tags.
Proof.
  induction tags as [|x tags IH] using rev_ind; [done|].
  rewrite firstSeen_snoc, elem_of_app, list_elem_of_singleton, <- IH.
  destruct (decide (x ∈ firstSeen tags)) as [Hx|Hx].
  - split; [by left|]. intros [?| ->]; done.
  - by rewrite elem_of_app, list_elem_of_singleton.
Qed.

Lemma firstSeen_NoDup (tags : list Tag) : NoDup (firstSeen tags).
Proof.
  induction tags as [|x tags IH] using rev_ind; [apply NoDup_nil_2|].
  rewrite firstSeen_snoc. destruct (decide (x ∈ firstSeen tags)) as [Hx|Hx]; [done|].
  apply NoDup_app. split; [done|]. split; [|apply NoDup_singleton].
  intros y Hy Hy'. apply list_elem_of_singleton in Hy'. by subst.
Qed.

Lemma addedTags_snoc (rules : gmap string PluralRule) (cc0 : string) (dl : Tag)
    (calls : list Call) (call : Call) (c : string) :
  addedTags rules cc0 dl (calls ++ [call]) c =
    (addedTags rules cc0 dl calls c ++
     if decide (callCountry call = c ∧ is_Some (Rules_Rule rules (callTag call)))
     then [callTag call] else [])%list.
Proof.
  unfold addedTags. rewrite filter_app, fmap_app, app_assoc. f_equal.
  destruct (decide _) as [H|H].
  - by rewrite (filter_cons_True _ call []) by done.
  - by rewrite (filter_cons_False _ call []) by done.
Qed.

(** A call that is not a successful call for the country code leaves the
    tag list of the country code. *)
Lemma step_tags_skip b (call : Call) (c : string) :
  ¬ (callCountry call = c ∧ is_Some (Rules_Rule (pluralRules b) (callTag call))) →
  LanguageTags (step NewMessageTemplate b call) c = LanguageTags b c.
Proof.
  intros Hn. destruct (Rules_Rule (pluralRules b) (callTag call)) eqn:Hr.
  - destruct (step_tags b call c) as [H|(Hc & _)]; [done|].
    destruct Hn. split; [done | eauto].
  - unfold step. by rewrite AddMessages_failure.
Qed.

(** The tag list of a country code is taken, in order, from the tags added
    under the country code in the order of their first add; and an added
    tag that is not in the list has a template map under its key. *)
Lemma insertion_order_invariant (cc0 : string) (dl : Tag) (calls : list Call) (c : string) :
  let b0 := NewBundle DefaultRules cc0 dl in
  let b := run NewMessageTemplate b0 calls in
  let order := firstSeen (addedTags (pluralRules b0) cc0 dl calls c) in
  LanguageTags b c `sublist_of` order ∧
  (∀ t, t ∈ order →
     t ∈ LanguageTags b c ∨ is_Some (templatesAt b (messageTemplateKey c t))).
Proof.
  intros b0. cbv zeta. induction calls as [|call calls IH] using rev_ind.
  - change (run NewMessageTemplate b0 []) with b0. unfold addedTags. simpl.
    rewrite app_nil_r. unfold b0. rewrite !NewBundle_tags.
    destruct (decide (cc0 = c)); rewrite ?firstSeen_singleton;
      (split; [done | intros t Ht; by left]).
  - destruct IH as [IHs IHm]. rewrite run_snoc, addedTags_snoc.
    set (b := run NewMessageTemplate b0 calls) in *.
    assert (Hrules : pluralRules b = pluralRules b0) by apply run_pluralRules.
    set (order := firstSeen (addedTags (pluralRules b0) cc0 dl calls c)) in *.
    destruct (decide (callCountry call = c ∧
                      is_Some (Rules_Rule (pluralRules b0) (callTag call)))) as [[Hc Hr]|Hn].
    + rewrite firstSeen_snoc. fold order. rewrite <- Hrules in Hr.
      destruct (AddMessages_one b (callCountry call) (callTag call) (callMessages call) Hr)
        as [Hu Hs]. fold (step NewMessageTemplate b call) in Hu, Hs.
      destruct (unseen_dec b (callCountry call) (callTag call)) as [Hun|Hseen].
      * destruct (Hu Hun) as [Ht _]. rewrite Ht, decide_True by done. rewrite Hc.
        destruct Hun as [Hk Hnin]. rewrite Hc in Hk, Hnin.
        rewrite decide_False.
        2: { intros Hin. destruct (IHm _ Hin) as [?|[ts Hts]]; [done | congruence]. }
        split; [by apply sublist_app|].
        intros t [Hin| ->%list_elem_of_singleton]%elem_of_app.
        -- destruct (IHm t Hin) as [?|Hp].
           ++ left. apply elem_of_app. by left.
           ++ right. by apply step_templatesAt_mono.
        -- left. apply elem_of_app. right. apply list_elem_of_here.
      * destruct (Hs Hseen) as [Ht _]. rewrite Ht.
        assert (Hm : ∀ t, t ∈ order →
                  t ∈ LanguageTags b c ∨
                  is_Some (templatesAt (step NewMessageTemplate b call) (messageTemplateKey c t))).
        { intros t Hin. destruct (IHm t Hin) as [?|Hp]; [by left|].
          right. by apply step_templatesAt_mono. }
        destruct (decide (callTag call ∈ order)); [done|].
        split; [by apply sublist_inserts_r|].
        intros t [Hin| ->%list_elem_of_singleton]%elem_of_app; [by apply Hm|].
        right. rewrite <- Hc. by apply step_populates.
    + rewrite app_nil_r. fold order.
      rewrite step_tags_skip by (by rewrite Hrules).
      split; [done|]. intros t Hin. destruct (IHm t Hin) as [?|Hp]; [by left|].
      right. by apply step_templatesAt_mono.
Qed.

(** When no country code of the calls has a hyphen, the tag list is the
    list of the tags added under the country code, in the order of their
    first add. *)
Lemma insertion_order_exact (cc0 : string) (dl : Tag) (calls : list Call) (c : string) :
  let b0 := NewBundle DefaultRules cc0 dl in
  Forall (λ call, hasHyphen (callCountry call) = false) calls →
  LanguageTags (run NewMessageTemplate b0 calls) c =
    firstSeen (addedTags (pluralRules b0) cc0 dl calls c).
Proof.
  intros b0. induction calls as [|call calls IH] using rev_ind; intros Hall.
  - change (run NewMessageTemplate b0 []) with b0. unfold addedTags. simpl.
    rewrite app_nil_r. unfold b0. rewrite NewBundle_tags.
    destruct (decide (cc0 = c)); by rewrite ?firstSeen_singleton.
  - apply Forall_app in Hall as [Hall Hcall]. apply Forall_cons in Hcall as [Hcall _].
    specialize (IH Hall). rewrite run_snoc, addedTags_snoc.
    set (b := run NewMessageTemplate b0 calls) in *.
    assert (Hrules : pluralRules b = pluralRules b0) by apply run_pluralRules.
    destruct (decide (callCountry call = c ∧
                      is_Some (Rules_Rule (pluralRules b0) (callTag call)))) as [[Hc Hr]|Hn].
    + rewrite firstSeen_snoc, <- IH. rewrite <- Hrules in Hr.
      destruct (AddMessages_one b (callCountry call) (callTag call) (callMessages call) Hr)
        as [Hu Hs]. fold (step NewMessageTemplate b call) in Hu, Hs.
      destruct (decide (callTag call ∈ LanguageTags b c)) as [Hin|Hnin].
      * destruct Hs as [Ht _]; [|by rewrite Ht]. intros [_ Hnot]. by rewrite Hc in Hnot.
      * destruct Hu as [Ht _]; [|by rewrite Ht, decide_True, Hc].
        split; [|by rewrite Hc].
        destruct (templatesAt b (messageTemplateKey (callCountry call) (callTag call)))
          as [ts|] eqn:Hk; [|done].
        exfalso. apply Hnin.
        destruct (run_invariant cc0 dl calls) as (_ & I2 & _).
        destruct (I2 (messageTemplateKey (callCountry call) (callTag call)))
          as (call' & Hcall' & Hkey & _ & Hreg).
        { fold b0. fold b. rewrite Hk. eauto. }
        rewrite Forall_forall in Hall.
        apply messageTemplateKey_inj in Hkey as [Hcc Htag]; [|by apply Hall|done].
        fold b0 in Hreg. fold b in Hreg. by rewrite Hcc, Htag, Hc in Hreg.
    + rewrite app_nil_r, <- IH. apply step_tags_skip. by rewrite Hrules.
Qed.

(** C8.  In every bundle obtained from [NewBundle] by calls of
    [AddMessages], the list that [LanguageTags] returns for a country code
    has no duplicate and holds its tags in the order in which their pairs
    were first added: it is taken in order from the tags added under the
    country code (the default language of [NewBundle], then the tags of the
    successful calls), each at its first add, and it is this whole list
    when no country code of the calls has a hyphen; the default language is
    the first tag of the country code of [NewBundle].  One more call keeps
    the list without duplicates and either leaves it or appends its tag,
    which was not in it; it does append it when it returns no error for a
    pair that has no template map under its key and whose tag is not in
    the list.  After any further calls the list still starts with the tags
    it holds now, in the same order. *)
Theorem LanguageTags_NoDup_insertion_order (cc0 : string) (dl : Tag)
    (calls : list Call) (c : string) :
  let b0 := NewBundle DefaultRules cc0 dl in
  let b := run NewMessageTemplate b0 calls in
  let order := firstSeen (addedTags (pluralRules b0) cc0 dl calls c) in
  NoDup (LanguageTags b c) ∧
  LanguageTags b c `sublist_of` order ∧
  (Forall (λ call, hasHyphen (callCountry call) = false) calls →
     LanguageTags b c = order) ∧
  head (LanguageTags b cc0) = Some dl ∧
  (∀ cc tag messages,
     let b' := (AddMessages NewMessageTemplate b cc tag messages).1 in
     NoDup (LanguageTags b' c) ∧
     (LanguageTags b' c = LanguageTags b c ∨
      (cc = c ∧ (tag ∉ LanguageTags b c) ∧
       LanguageTags b' c = (LanguageTags b c ++ [tag])%list)) ∧
     (is_Some (Rules_Rule (pluralRules b) tag) → unseen b cc tag →
        LanguageTags b' cc = (LanguageTags b cc ++ [tag])%list)) ∧
  (∀ calls',
     LanguageTags b c `prefix_of` LanguageTags (run NewMessageTemplate b calls') c).
Proof.
  intros b0 b order.
  assert (Hb : NoDup (LanguageTags b c)).
  { apply run_NoDup. unfold b0. rewrite NewBundle_tags.
    destruct (decide (cc0 = c)); [apply NoDup_singleton | apply NoDup_nil_2]. }
  split; [done|]. split; [apply (insertion_order_invariant cc0 dl calls c)|].
  split; [apply (insertion_order_exact cc0 dl calls c)|]. split; [|split].
  - destruct (run_prefix b0 calls cc0) as [k Hk]. fold b in Hk.
    rewrite Hk. unfold b0. by rewrite NewBundle_tags, decide_True.
  - intros cc tag messages b'. split; [|split].
    + apply (step_NoDup b (mkCall cc tag messages) c Hb).
    + apply (step_tags b (mkCall cc tag messages) c).
    + intros Hr Hu. by apply AddMessages_unseen.
  - intros calls'. apply run_prefix.
Qed.

End StoreFacts.

(** ** The small instance, evaluated *)

Example messageTemplateKey_tr_en : messageTemplateKey "tr" "en" = "tr-en".
Proof. reflexivity. Qed.

Example base_en_US : base "en-US" = "en".
Proof. reflexivity. Qed.

Example sampleBundle_tags :
  LanguageTags (sampleBundle "tr" "en") "tr" = ["en"] ∧
  matcher (sampleBundle "tr" "en") = Some (NewMatcher ["en"]).
Proof. vm_compute. split; reflexivity. Qed.

Example sampleAdd_lookup :
  let b := sampleAdd (sampleBundle "tr" "en") "tr" "tr" [merhaba] in
  LanguageTags b "tr" = ["en"; "tr"] ∧
  getMessageTemplate b "tr" "hello" "tr" = Some merhaba ∧
  getMessageTemplate b "en" "hello" "tr" = None ∧
  getMessageTemplate b "tr" "bye" "tr" = None.
Proof. vm_compute. repeat split; reflexivity. Qed.

Example sampleAdd_region_uses_base_rule :
  (AddMessages Some (sampleBundle "tr" "en") "tr" "en-US" [hello]).2 = None.
Proof. vm_compute. reflexivity. Qed.

Example sampleAdd_no_rule :
  (AddMessages Some (sampleBundle "tr" "en") "tr" "zz" [hello]).2 =
    Some "no plural rule registered for zz".
Proof. vm_compute. reflexivity. Qed.

Example Match_exact_then_default :
  Match (NewMatcher ["de"; "fr"]) ["ja"; "fr"] = ("fr", 1) ∧
  Match (NewMatcher ["de"; "fr"]) ["ja"] = ("de", 0).
Proof. vm_compute. split; reflexivity. Qed.

(** ** The properties on the small instance *)

Lemma AddMessages_atomic_on_failure_witness :
  Rules_Rule (pluralRules (sampleBundle "tr" "en")) "zz" = None ∧
  AddMessages Some (sampleBundle "tr" "en") "tr" "zz" [hello] =
    (sampleBundle "tr" "en", Some (noPluralRuleError "zz")).
Proof.
  assert (H : Rules_Rule (pluralRules (sampleBundle "tr" "en")) "zz" = None)
    by (vm_compute; reflexivity).
  split; [exact H|].
  exact (proj1 (AddMessages_atomic_on_failure Some (sampleBundle "tr" "en") "tr" "zz" [hello]) H).
Defined.

Lemma AddMessages_last_write_wins_witness :
  let b := sampleBundle "tr" "en" in
  is_Some (Rules_Rule (pluralRules b) "tr") ∧
  getMessageTemplate
    (AddMessages Some (AddMessages Some b "tr" "tr" [hello]).1 "tr" "tr" [merhaba]).1
    "tr" "hello" "tr" = Some merhaba.
Proof.
  intros b.
  assert (H : is_Some (Rules_Rule (pluralRules b) "tr"))
    by (exists englishRule; vm_compute; reflexivity).
  split; [exact H|].
  exact (proj1 (proj2 (AddMessages_last_write_wins Some b "tr" "tr" H)) hello merhaba eq_refl).
Defined.

Lemma NewBundle_art_rule_witness :
  is_Some (Rules_Rule sampleRules English) ∧
  Rules_Rule (pluralRules (sampleBundle "tr" "en")) artTag = Rules_Rule sampleRules English.
Proof.
  assert (H : is_Some (Rules_Rule sampleRules English))
    by (exists englishRule; vm_compute; reflexivity).
  split; [exact H|].
  exact (proj1 (proj2 (proj2
           (NewBundle_art_rule (MessageTemplate := Message) sampleRules "tr" "en" H)))).
Defined.

Lemma AddMessages_registers_unseen_witness :
  let b := sampleBundle "tr" "en" in
  is_Some (Rules_Rule (pluralRules b) "de") ∧ unseen b "de" "de" ∧
  LanguageTags (AddMessages Some b "de" "de" [hello]).1 "de" = (LanguageTags b "de" ++ ["de"])%list.
Proof.
  intros b.
  assert (H : is_Some (Rules_Rule (pluralRules b) "de"))
    by (exists englishRule; vm_compute; reflexivity).
  assert (Hu : unseen b "de" "de").
  { split; [vm_compute; reflexivity|]. vm_compute. apply not_elem_of_nil. }
  split; [exact H|]. split; [exact Hu|].
  exact (proj1 (proj1 (AddMessages_registers_unseen Some b "de" "de" [hello] H) Hu)).
Defined.

Lemma AddMessages_empty_registers_witness :
  let b := sampleBundle "tr" "en" in
  is_Some (Rules_Rule (pluralRules b) "de") ∧
  templatesAt b (messageTemplateKey "de" "de") = None ∧
  "de" ∈ LanguageTags (AddMessages Some b "de" "de" []).1 "de".
Proof.
  intros b.
  assert (H : is_Some (Rules_Rule (pluralRules b) "de"))
    by (exists englishRule; vm_compute; reflexivity).
  assert (Hk : templatesAt b (messageTemplateKey "de" "de") = None)
    by (vm_compute; reflexivity).
  split; [exact H|]. split; [exact Hk|].
  exact (proj1 (proj2 (proj2 (AddMessages_empty_registers Some b "de" "de" H) Hk))).
Defined.

Lemma AddMessages_order_witness :
  let b := sampleBundle "tr" "en" in
  is_Some (Rules_Rule (pluralRules b) "de") ∧
  is_Some (Rules_Rule (pluralRules b) "fr") ∧
  sameSupported
    (matcher (AddMessages Some (AddMessages Some b "de" "de" []).1 "de" "fr" []).1)
    (matcher (AddMessages Some (AddMessages Some b "de" "fr" []).1 "de" "de" []).1).
Proof.
  intros b.
  assert (H1 : is_Some (Rules_Rule (pluralRules b) "de"))
    by (exists englishRule; vm_compute; reflexivity).
  assert (H2 : is_Some (Rules_Rule (pluralRules b) "fr"))
    by (exists englishRule; vm_compute; reflexivity).
  split; [exact H1|]. split; [exact H2|].
  exact (proj1 (proj2 (AddMessages_order Some b "de" "de" "fr" [] [] H1 H2))).
Defined.

Lemma registered_iff_constructed_or_added_witness :
  let calls := [mkCall "de" "de" [hello]] in
  (∀ c, c ∈ calls → callKey c = messageTemplateKey "de" "de" →
     callCountry c = "de" ∧ callTag c = "de") ∧
  "de" ∈ LanguageTags (run Some (sampleBundle "tr" "en") calls) "de".
Proof.
  intros calls.
  assert (Hclash : ∀ c, c ∈ calls → callKey c = messageTemplateKey "de" "de" →
                        callCountry c = "de" ∧ callTag c = "de").
  { intros c Hc _. apply list_elem_of_singleton in Hc. subst c. split; reflexivity. }
  split; [exact Hclash|].
  apply (proj2 (registered_iff_constructed_or_added Some sampleRules "tr" "en"
                  calls "de" "de") Hclash).
  right. exists (mkCall "de" "de" [hello]). split; [apply list_elem_of_here|].
  split; [reflexivity|]. split; [reflexivity|].
  exists englishRule. vm_compute. reflexivity.
Defined.

Lemma LanguageTags_NoDup_insertion_order_witness :
  let calls := [mkCall "tr" "tr" [merhaba]; mkCall "tr" "en" [hello];
                mkCall "de" "de" []; mkCall "tr" "xx" [hello];
                mkCall "tr" "tr" []; mkCall "tr" "de" []] in
  let b := run Some (sampleBundle "tr" "en") calls in
  Forall (λ call, hasHyphen (callCountry call) = false) calls ∧
  LanguageTags b "tr" = ["en"; "tr"; "de"] ∧
  is_Some (Rules_Rule (pluralRules b) "fr") ∧
  unseen b "tr" "fr" ∧
  LanguageTags (AddMessages Some b "tr" "fr" []).1 "tr" = ["en"; "tr"; "de"; "fr"].
Proof.
  intros calls b.
  assert (Hall : Forall (λ call, hasHyphen (callCountry call) = false) calls)
    by (repeat constructor).
  assert (Hr : is_Some (Rules_Rule (pluralRules b) "fr"))
    by (exists englishRule; vm_compute; reflexivity).
  assert (Hu : unseen b "tr" "fr").
  { split; [vm_compute; reflexivity|]. vm_compute. intros Hin.
    repeat (apply elem_of_cons in Hin as [Hin|Hin]; [discriminate|]).
    by apply elem_of_nil in Hin. }
  pose proof (LanguageTags_NoDup_insertion_order Some sampleRules "tr" "en" calls "tr")
    as (_ & _ & Hexact & _ & Hstep & _).
  split; [exact Hall|]. split; [exact (Hexact Hall)|]. split; [exact Hr|].
  split; [exact Hu|]. exact (proj2 (proj2 (Hstep "tr" "fr" [])) Hr Hu).
Defined.

(** ** Where the code departs from the stated properties *)

(** C1, on an input.  The bundle has one matcher, and [addTag] replaces it
    by a matcher over the tags of the country code it is registering.
    After [NewBundle("tr", en)] and [AddMessages("de", de)] the list of "tr"
    is [en] while the matcher supports [de] only: a match for country code
    "tr" is searched among the tags of "de", and the preferred tag de,
    registered under "de" alone, is matched. *)
Theorem matcher_follows_last_country :
  let b := sampleAdd (sampleBundle "tr" "en") "de" "de" [] in
  LanguageTags b "tr" = ["en"] ∧
  LanguageTags b "de" = ["de"] ∧
  matcher b = Some (NewMatcher ["de"]) ∧
  matcher b ≠ Some (NewMatcher (LanguageTags b "tr")) ∧
  bestMatch b ["de"] = Some ("de", 0) ∧
  "de" ∉ LanguageTags b "tr".
Proof.
  vm_compute. repeat split; try reflexivity.
  - discriminate.
  - by intros [Heq|Hin]%elem_of_cons; [|apply elem_of_nil in Hin].
Qed.

(** C2 fails on a new bundle: [NewBundle("tr", en)] has en in the list of
    "tr" although no message has been added for the pair.  It fails as well
    after [AddMessages("de", de)] with no message, which puts de in the
    list of "de". *)
Lemma registered_without_message :
  let b0 := sampleBundle "tr" "en" in
  let calls := [mkCall "de" "de" []] in
  ¬ ("en" ∈ LanguageTags (run Some b0 []) "tr" ↔ messageAdded b0 [] "tr" "en") ∧
  ¬ ("de" ∈ LanguageTags (run Some b0 calls) "de" ↔ messageAdded b0 calls "de" "de").
Proof.
  intros b0 calls. split; intros [Hto _].
  - destruct Hto as (c & Hc & _).
    + vm_compute. apply list_elem_of_here.
    + by apply elem_of_nil in Hc.
  - destruct Hto as (c & Hc & _ & Hm).
    + vm_compute. apply list_elem_of_here.
    + apply list_elem_of_singleton in Hc. subst c. by apply Hm.
Qed.

(** C3 fails for two new tags: under country code "de", registering de then
    fr makes de the first supported tag, registering fr then de makes it
    fr, and for the preferred tag ja, which neither list supports, the
    first supported tag is the match. *)
Lemma match_depends_on_order :
  let b := sampleBundle "tr" "en" in
  let b12 := sampleAdd (sampleAdd b "de" "de" []) "de" "fr" [] in
  let b21 := sampleAdd (sampleAdd b "de" "fr" []) "de" "de" [] in
  bestMatch b12 ["ja"] = Some ("de", 0) ∧
  bestMatch b21 ["ja"] = Some ("fr", 0) ∧
  bestMatch b12 ["ja"] ≠ bestMatch b21 ["ja"].
Proof. vm_compute. repeat split; try reflexivity. discriminate. Qed.

(** C6, on an input.  The template key joins the country code and the tag
    by a hyphen, which both may contain: the pairs ("a", en-x-tr) and
    ("a-en-x", tr) have the same key.  After [AddMessages("a", en-x-tr)]
    with the message "hello", nothing was ever added or registered for
    ("a-en-x", tr), and the lookup of "hello" under that pair finds the
    template of the other pair. *)
Theorem getMessageTemplate_key_clash :
  let b0 := sampleBundle "a" "en" in
  let calls := [mkCall "a" "en-x-tr" [hello]] in
  let b := run Some b0 calls in
  messageTemplateKey "a-en-x" "tr" = messageTemplateKey "a" "en-x-tr" ∧
  ¬ messageAdded b0 calls "a-en-x" "tr" ∧
  LanguageTags b "a-en-x" = [] ∧
  getMessageTemplate b "tr" "hello" "a-en-x" = Some hello.
Proof.
  intros b0 calls b. split; [reflexivity|]. split; [|split; vm_compute; reflexivity].
  intros (c & Hc & (Hcc & _) & _).
  apply list_elem_of_singleton in Hc. subst c. discriminate.
Qed.

(** C7 fails for the default language: in the bundle of [NewBundle("tr", en)]
    followed by [AddMessages("de", de)], no message has been added for
    ("tr", en); the call that adds the first one returns no error, yet the
    tag lists stay as they are and the matcher is not rebuilt from the
    list of "tr": it still supports [de]. *)
Lemma first_message_without_rebuild :
  let b0 := sampleBundle "tr" "en" in
  let calls := [mkCall "de" "de" []] in
  let b := run Some b0 calls in
  let r := AddMessages Some b "tr" "en" [hello] in
  ¬ messageAdded b0 calls "tr" "en" ∧
  templatesAt b (messageTemplateKey "tr" "en") = None ∧
  r.2 = None ∧
  (∀ c, LanguageTags r.1 c = LanguageTags b c) ∧
  matcher r.1 = Some (NewMatcher ["de"]) ∧
  matcher r.1 ≠ Some (NewMatcher (LanguageTags r.1 "tr")).
Proof.
  intros b0 calls b r. split; [|split; [|split; [|split; [|split]]]].
  - intros (c & Hc & (Hcc & _) & _).
    apply list_elem_of_singleton in Hc. subst c. discriminate.
  - vm_compute. reflexivity.
  - vm_compute. reflexivity.
  - intros c.
    assert (Hr : is_Some (Rules_Rule (pluralRules b) "en"))
      by (exists englishRule; vm_compute; reflexivity).
    destruct (AddMessages_seen Some b "tr" "en" [hello] Hr) as [Hc _].
    + intros [_ Hnin]. apply Hnin. vm_compute. apply list_elem_of_here.
    + unfold r, LanguageTags. by rewrite Hc.
  - vm_compute. reflexivity.
  - vm_compute. discriminate.
Qed.

(** C10 fails for a pair that has templates: after [AddMessages("tr", tr)]
    with the message "hello", a call with no message returns no error, the
    template map of the pair is not empty and the lookup of "hello" is not
    absent. *)
Lemma empty_add_keeps_templates :
  let b := sampleAdd (sampleBundle "tr" "en") "tr" "tr" [merhaba] in
  let r := AddMessages Some b "tr" "tr" [] in
  r.2 = None ∧
  templatesAt r.1 (messageTemplateKey "tr" "tr") ≠ Some ∅ ∧
  getMessageTemplate r.1 "tr" "hello" "tr" = Some merhaba.
Proof.
  intros b r. split; [vm_compute; reflexivity|]. split; [|vm_compute; reflexivity].
  intros H.
  assert (Hg : getMessageTemplate r.1 "tr" "hello" "tr" = None).
  { unfold getMessageTemplate. rewrite H. by rewrite lookup_empty. }
  vm_compute in Hg. discriminate.
Qed.

(** ** More on the bundle *)

Section StoreMore.

Context {MessageTemplate : Type}.
Variable NewMessageTemplate : Message -> option MessageTemplate.
Variable DefaultRules : gmap string PluralRule.

Implicit Types b : Bundle MessageTemplate.

Lemma AddMessages_defaultLanguage b (cc : string) (tag : Tag) (messages : list Message) :
  defaultLanguage (AddMessages NewMessageTemplate b cc tag messages).1 = defaultLanguage b.
Proof.
  destruct (Rules_Rule (pluralRules b) tag) eqn:Hr.
  - rewrite AddMessages_success by eauto. simpl. unfold afterAddTag.
    destruct (templatesAt _ _); [done | apply addTag_defaultLanguage].
  - by rewrite AddMessages_failure.
Qed.

Lemma storeAll_app ts (ms1 ms2 : list Message) :
  storeAll NewMessageTemplate ts (ms1 ++ ms2) =
    storeAll NewMessageTemplate (storeAll NewMessageTemplate ts ms1) ms2.
Proof. unfold storeAll. by rewrite foldl_app. Qed.

(** X5.  One call with two lists of messages, one after the other, is the call
    with the first list followed by the call with the second: the same
    bundle and the same error. *)
Theorem AddMessages_app b (cc : string) (tag : Tag) (ms1 ms2 : list Message) :
  AddMessages NewMessageTemplate b cc tag (ms1 ++ ms2) =
    AddMessages NewMessageTemplate
      (AddMessages NewMessageTemplate b cc tag ms1).1 cc tag ms2.
Proof.
  destruct (Rules_Rule (pluralRules b) tag) eqn:Hr.
  - assert (Hr' : is_Some (Rules_Rule (pluralRules b) tag)) by eauto.
    set (b1 := (AddMessages NewMessageTemplate b cc tag ms1).1).
    assert (Hr1 : is_Some (Rules_Rule (pluralRules b1) tag)).
    { unfold b1. by rewrite AddMessages_pluralRules. }
    rewrite (AddMessages_success NewMessageTemplate b1) by done.
    assert (Hk : templatesAt b1 (messageTemplateKey cc tag) =
                 Some (storeAll NewMessageTemplate
                         (default ∅ (templatesAt b (messageTemplateKey cc tag))) ms1)).
    { unfold b1. rewrite AddMessages_templatesAt by done. by rewrite decide_True. }
    unfold afterAddTag at 1. rewrite Hk. simpl. rewrite <- storeAll_app.
    clear Hk Hr1. subst b1.
    rewrite (AddMessages_success NewMessageTemplate b cc tag ms1) by done.
    rewrite (AddMessages_success NewMessageTemplate b cc tag (ms1 ++ ms2)) by done.
    simpl. unfold set_messageTemplates. simpl. by rewrite insert_insert_eq.
  - rewrite (AddMessages_failure NewMessageTemplate b cc tag ms1) by done.
    simpl. by rewrite !AddMessages_failure.
Qed.

Lemma filter_ID_short (messages : list Message) (id : string) :
  NoDup (ID <$> messages) → (length (filter (λ m, ID m = id) messages) ≤ 1)%nat.
Proof.
  induction messages as [|m ms IH]; simpl; [intros _; simpl; lia|].
  intros [Hnin Hnd]%NoDup_cons. destruct (decide (ID m = id)) as [Heq|Hne].
  - rewrite filter_cons_True by done. simpl.
    destruct (filter (λ m0, ID m0 = id) ms) as [|x xs] eqn:Hf; [simpl; lia|].
    exfalso. apply Hnin.
    assert (Hx : x ∈ filter (λ m0, ID m0 = id) ms) by (rewrite Hf; apply list_elem_of_here).
    apply list_elem_of_filter in Hx as [Hid Hx].
    rewrite Heq, <- Hid. by apply list_elem_of_fmap_2.
  - rewrite filter_cons_False by done. by apply IH.
Qed.

Lemma storeAll_Permutation ts (ms ms' : list Message) :
  ms ≡ₚ ms' → NoDup (ID <$> ms) →
  storeAll NewMessageTemplate ts ms = storeAll NewMessageTemplate ts ms'.
Proof.
  intros Hp Hnd. apply map_eq. intros id. rewrite !storeAll_lookup.
  assert (Hf : filter (λ m, ID m = id) ms ≡ₚ filter (λ m, ID m = id) ms')
    by (by rewrite Hp).
  pose proof (filter_ID_short ms id Hnd) as Hlen.
  destruct (filter (λ m, ID m = id) ms) as [|x [|y l]].
  - by apply Permutation_nil_l in Hf as ->.
  - by apply Permutation_singleton_l in Hf as ->.
  - simpl in Hlen. lia.
Qed.

(** X6.  When the IDs of the messages are pairwise distinct, the order in which
    one call brings them does not matter. *)
Theorem AddMessages_Permutation b (cc : string) (tag : Tag) (ms ms' : list Message) :
  ms ≡ₚ ms' → NoDup (ID <$> ms) →
  AddMessages NewMessageTemplate b cc tag ms = AddMessages NewMessageTemplate b cc tag ms'.
Proof.
  intros Hp Hnd. destruct (Rules_Rule (pluralRules b) tag) eqn:Hr.
  - rewrite !AddMessages_success by eauto. by rewrite (storeAll_Permutation _ ms ms').
  - by rewrite !AddMessages_failure.
Qed.

(** X4.  What a call of [AddMessages] leaves alone, whether it fails or not: the
    plural rules and the default language; the tag list of every other
    country code; every lookup under a pair with another template key; and,
    under its own pair, every ID that none of its messages has. *)
Theorem AddMessages_frame b (cc : string) (tag : Tag) (messages : list Message) :
  let b' := (AddMessages NewMessageTemplate b cc tag messages).1 in
  pluralRules b' = pluralRules b ∧
  defaultLanguage b' = defaultLanguage b ∧
  (∀ c, c ≠ cc → LanguageTags b' c = LanguageTags b c) ∧
  (∀ tag' id cc', messageTemplateKey cc' tag' ≠ messageTemplateKey cc tag →
     getMessageTemplate b' tag' id cc' = getMessageTemplate b tag' id cc') ∧
  (∀ id, id ∉ ID <$> messages →
     getMessageTemplate b' tag id cc = getMessageTemplate b tag id cc).
Proof.
  intros b'. split; [apply AddMessages_pluralRules|].
  split; [apply AddMessages_defaultLanguage|].
  destruct (Rules_Rule (pluralRules b) tag) eqn:Hr.
  2: { unfold b'. rewrite AddMessages_failure by done. by repeat split. }
  assert (Hr' : is_Some (Rules_Rule (pluralRules b) tag)) by eauto.
  split; [|split].
  - intros c Hc.
    destruct (step_tags NewMessageTemplate b (mkCall cc tag messages) c)
      as [H|(Hcc & _)]; [done|]. simpl in Hcc. by subst.
  - intros tag' id cc' Hk. unfold b'. rewrite getMessageTemplate_AddMessages by done.
    by rewrite decide_False.
  - intros id Hid. unfold b'. rewrite getMessageTemplate_AddMessages by done.
    rewrite decide_True by done.
    destruct (last (filter (λ m, ID m = id) messages)) as [m|] eqn:Hl; [|done].
    exfalso. apply Hid. apply last_Some in Hl as [l Hl].
    assert (Hm : m ∈ filter (λ m, ID m = id) messages).
    { rewrite Hl. apply elem_of_app. right. apply list_elem_of_here. }
    apply list_elem_of_filter in Hm as [<- Hm]. by apply list_elem_of_fmap_2.
Qed.

Lemma storedMessages_snoc (rules : gmap string PluralRule) (key : string)
    (calls : list Call) (c : Call) :
  storedMessages rules key (calls ++ [c]) =
    (storedMessages rules key calls ++
     if decide (callKey c = key ∧ is_Some (Rules_Rule rules (callTag c)))
     then callMessages c else [])%list.
Proof.
  unfold storedMessages. rewrite filter_app, fmap_app, concat_app. f_equal.
  destruct (decide _) as [H|H].
  - rewrite filter_cons_True by done. rewrite filter_nil. simpl. by rewrite app_nil_r.
  - rewrite filter_cons_False by done. by rewrite filter_nil.
Qed.

Lemma lookup_run b (calls : list Call) (tag : Tag) (id cc : string) :
  getMessageTemplate (run NewMessageTemplate b calls) tag id cc =
    match last (filter (λ m, ID m = id)
                  (storedMessages (pluralRules b) (messageTemplateKey cc tag) calls)) with
    | Some m => NewMessageTemplate m
    | None => getMessageTemplate b tag id cc
    end.
Proof.
  induction calls as [|c calls IH] using rev_ind; [done|].
  rewrite run_snoc, storedMessages_snoc, filter_app, last_app.
  unfold step.
  pose proof (run_pluralRules NewMessageTemplate b calls) as Hrules.
  destruct (Rules_Rule (pluralRules b) (callTag c)) as [r|] eqn:Hr.
  - rewrite getMessageTemplate_AddMessages by (rewrite Hrules, Hr; eauto).
    fold (callKey c).
    destruct (decide (callKey c = messageTemplateKey cc tag)) as [Hk|Hk].
    + rewrite decide_True by eauto.
      by destruct (last (filter _ (callMessages c))).
    + rewrite decide_False by (by intros [? _]). by rewrite filter_nil.
  - rewrite AddMessages_failure by (by rewrite Hrules).
    rewrite decide_False; [by rewrite filter_nil|].
    intros [_ [? ?]]. congruence.
Qed.

(** X7.  Last write wins across calls: after any sequence of calls, the lookup
    of an ID under a pair finds the template of the last message with this
    ID among those that the successful calls brought under the key of the
    pair, and what it found before the calls when there is none. *)
Theorem getMessageTemplate_run b (calls : list Call) (tag : Tag) (id cc : string) :
  getMessageTemplate (run NewMessageTemplate b calls) tag id cc =
    match last (filter (λ m, ID m = id)
                  (storedMessages (pluralRules b) (messageTemplateKey cc tag) calls)) with
    | Some m => NewMessageTemplate m
    | None => getMessageTemplate b tag id cc
    end.
Proof. apply lookup_run. Qed.

(** X8.  The calls that fail leave no trace: a sequence of calls ends in the
    bundle in which its successful calls alone end. *)
Theorem run_successful_calls b (calls : list Call) :
  run NewMessageTemplate b calls =
    run NewMessageTemplate b
      (filter (λ c, is_Some (Rules_Rule (pluralRules b) (callTag c))) calls).
Proof.
  induction calls as [|c calls IH] using rev_ind; [done|].
  rewrite filter_app, run_snoc.
  pose proof (run_pluralRules NewMessageTemplate b calls) as Hrules.
  destruct (decide (is_Some (Rules_Rule (pluralRules b) (callTag c)))) as [Hr|Hr].
  - rewrite (filter_cons_True _ c []) by done. rewrite filter_nil, run_snoc.
    by rewrite IH.
  - rewrite (filter_cons_False _ c []) by done. rewrite filter_nil, app_nil_r.
    unfold step. rewrite AddMessages_failure; [done|].
    rewrite Hrules. by apply eq_None_not_Some.
Qed.

Lemma run_defaultLanguage b (calls : list Call) :
  defaultLanguage (run NewMessageTemplate b calls) = defaultLanguage b.
Proof.
  induction calls as [|c calls IH] using rev_ind; [done|].
  rewrite run_snoc. unfold step. by rewrite AddMessages_defaultLanguage.
Qed.

Lemma NewBundle_defaultLanguage (cc : string) (dl : Tag) :
  defaultLanguage (NewBundle (MessageTemplate := MessageTemplate) DefaultRules cc dl) = dl.
Proof. unfold NewBundle. by rewrite addTag_defaultLanguage. Qed.

(** X1.  A new bundle: its default language is the tag given; its only tag list
    is that of the country code given and holds the default language; its
    matcher supports that tag; its plural rules are those of [NewBundle]
    whatever the arguments; and every lookup is absent. *)
Theorem NewBundle_fresh (cc : string) (dl : Tag) :
  let b := NewBundle (MessageTemplate := MessageTemplate) DefaultRules cc dl in
  defaultLanguage b = dl ∧
  (∀ c, LanguageTags b c = if decide (cc = c) then [dl] else []) ∧
  matcher b = Some (NewMatcher [dl]) ∧
  pluralRules b = Rules_set DefaultRules artTag (Rules_Rule DefaultRules English) ∧
  (∀ tag id c, getMessageTemplate b tag id c = None).
Proof.
  intros b. split; [|split; [|split; [|split]]].
  - apply NewBundle_defaultLanguage.
  - intros c. apply NewBundle_tags.
  - apply NewBundle_matcher.
  - apply NewBundle_pluralRules.
  - intros tag id c. apply getMessageTemplate_absent. apply NewBundle_templatesAt.
Qed.

(** X10.  In a bundle obtained from [NewBundle] by calls of [AddMessages], the
    default language is still the one given, and it is the first tag of
    the list of the country code given: the tag on which a matcher built
    from this list falls back. *)
Theorem defaultLanguage_first (cc0 : string) (dl : Tag) (calls : list Call) :
  let b := run NewMessageTemplate (NewBundle DefaultRules cc0 dl) calls in
  defaultLanguage b = dl ∧ head (LanguageTags b cc0) = Some dl.
Proof.
  intros b. split.
  - unfold b. rewrite run_defaultLanguage. apply NewBundle_defaultLanguage.
  - destruct (run_prefix NewMessageTemplate (NewBundle DefaultRules cc0 dl) calls cc0)
      as [k Hk]. fold b in Hk. rewrite Hk, NewBundle_tags, decide_True by done. done.
Qed.

(** X11.  In such a bundle every tag of a list has a plural rule, except possibly
    the default language under the country code of [NewBundle], which is
    registered without a look at the rules. *)
Theorem registered_has_rule (cc0 : string) (dl : Tag) (calls : list Call)
    (cc : string) (tag : Tag) :
  let b := run NewMessageTemplate (NewBundle DefaultRules cc0 dl) calls in
  tag ∈ LanguageTags b cc →
  (cc = cc0 ∧ tag = dl) ∨ is_Some (Rules_Rule (pluralRules b) tag).
Proof.
  intros b Hin.
  destruct (run_invariant NewMessageTemplate DefaultRules cc0 dl calls) as (I1 & _).
  destruct (I1 cc tag Hin) as [?|(c & _ & _ & _ & Hr)]; [by left|].
  right. unfold b. by rewrite run_pluralRules.
Qed.

(** X12.  In such a bundle the matcher is never [nil]: it is the matcher over the
    whole tag list of one country code, and this list is not empty. *)
Theorem matcher_never_nil (cc0 : string) (dl : Tag) (calls : list Call) :
  let b := run NewMessageTemplate (NewBundle DefaultRules cc0 dl) calls in
  ∃ cc, matcher b = Some (NewMatcher (LanguageTags b cc)) ∧ LanguageTags b cc ≠ [].
Proof.
  cbv zeta. induction calls as [|call calls IH] using rev_ind.
  - exists cc0. change (run NewMessageTemplate ?b []) with b.
    by rewrite NewBundle_matcher, NewBundle_tags, decide_True.
  - rewrite run_snoc. destruct IH as (cc & IH & Hne).
    set (b := run NewMessageTemplate (NewBundle DefaultRules cc0 dl) calls) in *.
    unfold step. destruct call as [c tag messages]. simpl.
    destruct (Rules_Rule (pluralRules b) tag) eqn:Hr.
    + destruct (unseen_dec b c tag) as [Hu|Hs].
      * exists c.
        destruct (AddMessages_unseen NewMessageTemplate b c tag messages) as (Ht & _ & Hm);
          eauto.
        split; [done|]. rewrite Ht. by destruct (LanguageTags b c).
      * exists cc.
        destruct (AddMessages_seen NewMessageTemplate b c tag messages) as [Hc Hm]; eauto.
        assert (Ht : LanguageTags (AddMessages NewMessageTemplate b c tag messages).1 cc =
                     LanguageTags b cc) by (unfold LanguageTags; by rewrite Hc).
        by rewrite Hm, Ht.
    + exists cc. by rewrite AddMessages_failure.
Qed.

(** X2.  [addTag] does nothing when repeated, changes neither the templates,
    the plural rules nor the default language, leaves the lists of the
    other country codes, keeps a list without duplicates so, and the tag
    is in the list of its country code afterwards. *)
Theorem addTag_idempotent b (cc : string) (tag : Tag) :
  let b' := addTag b cc tag in
  addTag b' cc tag = b' ∧
  tag ∈ LanguageTags b' cc ∧
  messageTemplates b' = messageTemplates b ∧
  pluralRules b' = pluralRules b ∧
  defaultLanguage b' = defaultLanguage b ∧
  (∀ c, c ≠ cc → LanguageTags b' c = LanguageTags b c) ∧
  (NoDup (LanguageTags b cc) → NoDup (LanguageTags b' cc)).
Proof.
  intros b'. split; [apply addTag_registered, addTag_elem|].
  split; [apply addTag_elem|]. split; [apply addTag_messageTemplates|].
  split; [apply addTag_pluralRules|]. split; [apply addTag_defaultLanguage|].
  split.
  - intros c Hc. by apply addTag_other_tags.
  - intros Hnd. unfold b'. destruct (decide (tag ∈ LanguageTags b cc)) as [Hin|Hnin].
    + by rewrite addTag_registered.
    + rewrite addTag_new_tags by done. apply NoDup_app. split; [done|].
      split; [|apply NoDup_singleton].
      intros x Hx Hx'. apply list_elem_of_singleton in Hx'. by subst.
Qed.

End StoreMore.

(** X3.  The template key, once more: country codes without a hyphen give
    distinct keys to distinct pairs, and one country code gives distinct
    keys to distinct tags. *)
Theorem messageTemplateKey_injective (cc1 cc2 : string) (t1 t2 : Tag) :
  messageTemplateKey cc1 t1 = messageTemplateKey cc2 t2 →
  (cc1 = cc2 → t1 = t2) ∧
  (hasHyphen cc1 = false → hasHyphen cc2 = false → cc1 = cc2 ∧ t1 = t2).
Proof.
  intros H. split.
  - intros ->. by apply messageTemplateKey_inj_tag in H.
  - intros H1 H2. by apply messageTemplateKey_inj.
Qed.

(** ** Calls for different country codes *)

Section CountryOrder.

Context {MessageTemplate : Type}.
Variable NewMessageTemplate : Message -> option MessageTemplate.

Implicit Types b : Bundle MessageTemplate.

(** A call acts in the same way on two bundles that agree on the plural
    rules, on the tag list of its country code and on the keys of this
    country code that hold a template map. *)
Lemma step_agree b1 b2 (call : Call) :
  let c := callCountry call in
  pluralRules b1 = pluralRules b2 →
  LanguageTags b1 c = LanguageTags b2 c →
  (∀ t, templatesAt b1 (messageTemplateKey c t) = None ↔
        templatesAt b2 (messageTemplateKey c t) = None) →
  LanguageTags (step NewMessageTemplate b1 call) c =
    LanguageTags (step NewMessageTemplate b2 call) c ∧
  (∀ t, templatesAt (step NewMessageTemplate b1 call) (messageTemplateKey c t) = None ↔
        templatesAt (step NewMessageTemplate b2 call) (messageTemplateKey c t) = None).
Proof.
  destruct call as [c tag messages]. simpl. intros Hrules Htags Hkeys. unfold step. simpl.
  destruct (Rules_Rule (pluralRules b1) tag) eqn:Hr1.
  - assert (H1 : is_Some (Rules_Rule (pluralRules b1) tag)) by eauto.
    assert (H2 : is_Some (Rules_Rule (pluralRules b2) tag)) by (by rewrite <- Hrules).
    split.
    + destruct (AddMessages_one NewMessageTemplate b1 c tag messages H1) as [Hu1 Hs1].
      destruct (AddMessages_one NewMessageTemplate b2 c tag messages H2) as [Hu2 Hs2].
      assert (Hiff : unseen b1 c tag ↔ unseen b2 c tag).
      { unfold unseen. by rewrite Hkeys, Htags. }
      destruct (unseen_dec b1 c tag) as [Hu|Hs].
      * destruct (Hu1 Hu) as [Ha _]. destruct (Hu2 (proj1 Hiff Hu)) as [Hb _].
        rewrite Ha, Hb. rewrite !decide_True by done. by rewrite Htags.
      * destruct (Hs1 Hs) as [Ha _].
        destruct Hs2 as [Hb _]; [by rewrite <- Hiff | by rewrite Ha, Hb].
    + intros t. rewrite !AddMessages_templatesAt by done.
      destruct (decide _); [done | apply Hkeys].
  - rewrite !AddMessages_failure by (by rewrite <- ?Hrules). by split.
Qed.

(** A call for another country code, when neither code has a hyphen,
    touches neither the tag list nor the keys of this one. *)
Lemma step_other b (call : Call) (c : string) :
  callCountry call ≠ c → hasHyphen c = false → hasHyphen (callCountry call) = false →
  LanguageTags (step NewMessageTemplate b call) c = LanguageTags b c ∧
  (∀ t, templatesAt (step NewMessageTemplate b call) (messageTemplateKey c t) =
        templatesAt b (messageTemplateKey c t)).
Proof.
  intros Hne Hc Hcall. split.
  - destruct (step_tags NewMessageTemplate b call c) as [H|(Heq & _)]; [done|].
    by destruct Hne.
  - intros t. unfold step.
    destruct (Rules_Rule (pluralRules b) (callTag call)) eqn:Hr.
    + rewrite AddMessages_templatesAt by eauto. rewrite decide_False; [done|].
      intros Hk. apply messageTemplateKey_inj in Hk as [Hk _]; done.
    + by rewrite AddMessages_failure.
Qed.

(** The tag list of a country code comes from the calls for this country
    code alone, when no country code has a hyphen. *)
Lemma run_project b (calls : list Call) (c : string) :
  hasHyphen c = false →
  Forall (λ call, hasHyphen (callCountry call) = false) calls →
  let b1 := run NewMessageTemplate b calls in
  let b2 := run NewMessageTemplate b (filter (λ call, callCountry call = c) calls) in
  LanguageTags b1 c = LanguageTags b2 c ∧
  (∀ t, templatesAt b1 (messageTemplateKey c t) = None ↔
        templatesAt b2 (messageTemplateKey c t) = None).
Proof.
  intros Hc. cbv zeta. induction calls as [|call calls IH] using rev_ind; intros Hall.
  { by split. }
  apply Forall_app in Hall as [Hall Hcall]. apply Forall_cons in Hcall as [Hcall _].
  destruct (IH Hall) as [Ht Hk]. rewrite filter_app, run_snoc.
  destruct (decide (callCountry call = c)) as [Heq|Hne].
  - rewrite (filter_cons_True _ call []) by done. rewrite filter_nil, run_snoc.
    subst c. apply step_agree; [|done|done].
    by rewrite !run_pluralRules.
  - rewrite (filter_cons_False _ call []) by done. rewrite filter_nil, app_nil_r.
    destruct (step_other (run NewMessageTemplate b calls) call c Hne Hc Hcall) as [Ht' Hk'].
    split; [by rewrite Ht'|]. intros t. by rewrite Hk'.
Qed.

Lemma run_tags_other b (calls : list Call) (c : string) :
  Forall (λ call, callCountry call ≠ c) calls →
  LanguageTags (run NewMessageTemplate b calls) c = LanguageTags b c.
Proof.
  induction calls as [|call calls IH] using rev_ind; intros Hall; [done|].
  apply Forall_app in Hall as [Hall Hcall]. apply Forall_cons in Hcall as [Hcall _].
  rewrite run_snoc.
  destruct (step_tags NewMessageTemplate (run NewMessageTemplate b calls) call c)
    as [->|(Heq & _)]; [by apply IH | done].
Qed.

(** Among calls whose country codes have no hyphen, the calls with the key
    of one of them are calls for its country code. *)
Lemma filter_key_country (rules : gmap string PluralRule) (c0 : Call) (calls : list Call) :
  hasHyphen (callCountry c0) = false →
  Forall (λ call, hasHyphen (callCountry call) = false) calls →
  filter (λ c, callKey c = callKey c0 ∧ is_Some (Rules_Rule rules (callTag c))) calls =
  filter (λ c, callKey c = callKey c0 ∧ is_Some (Rules_Rule rules (callTag c)))
    (filter (λ c, callCountry c = callCountry c0) calls).
Proof.
  intros H0. induction calls as [|x calls IH]; [done|].
  intros [Hx Hall]%Forall_cons. specialize (IH Hall).
  destruct (decide (callCountry x = callCountry c0)) as [Heq|Hne].
  - rewrite (filter_cons_True (λ c, callCountry c = callCountry c0)) by done.
    destruct (decide (callKey x = callKey c0 ∧ is_Some (Rules_Rule rules (callTag x)))).
    + rewrite !filter_cons_True by done. by rewrite IH.
    + rewrite !filter_cons_False by done. done.
  - rewrite (filter_cons_False (λ c, callCountry c = callCountry c0)) by done.
    rewrite filter_cons_False; [done|].
    intros [Hk _]. unfold callKey in Hk.
    apply messageTemplateKey_inj in Hk as [Hk _]; done.
Qed.

Lemma filter_none {A : Type} (P : A → Prop) `{!∀ x, Decision (P x)} (l : list A) :
  (∀ x, x ∈ l → ¬ P x) → filter P l = [].
Proof.
  induction l as [|x l IH]; [done|]. intros Hn.
  rewrite filter_cons_False by (apply Hn, list_elem_of_here).
  apply IH. intros y Hy. apply Hn. by apply list_elem_of_further.
Qed.

Lemma run_by_country b (calls calls' : list Call) :
  Forall (λ c, hasHyphen (callCountry c) = false) calls →
  (∀ cc, filter (λ c, callCountry c = cc) calls = filter (λ c, callCountry c = cc) calls') →
  (∀ c, LanguageTags (run NewMessageTemplate b calls) c =
        LanguageTags (run NewMessageTemplate b calls') c) ∧
  (∀ tag id c, getMessageTemplate (run NewMessageTemplate b calls) tag id c =
               getMessageTemplate (run NewMessageTemplate b calls') tag id c).
Proof.
  intros Hall Hsame.
  assert (Hmem : ∀ x, x ∈ calls ↔ x ∈ calls').
  { intros x. specialize (Hsame (callCountry x)). split; intros Hx.
    - assert (H : x ∈ filter (λ c, callCountry c = callCountry x) calls)
        by (by apply list_elem_of_filter).
      rewrite Hsame in H. by apply list_elem_of_filter in H as [_ H].
    - assert (H : x ∈ filter (λ c, callCountry c = callCountry x) calls')
        by (by apply list_elem_of_filter).
      rewrite <- Hsame in H. by apply list_elem_of_filter in H as [_ H]. }
  assert (Hall' : Forall (λ c, hasHyphen (callCountry c) = false) calls').
  { rewrite Forall_forall in Hall |- *. intros x Hx. apply Hall. by apply Hmem. }
  split.
  - intros c. destruct (hasHyphen c) eqn:Hc.
    + rewrite !run_tags_other; [done| |].
      * rewrite Forall_forall in Hall' |- *. intros x Hx Heq.
        specialize (Hall' x Hx). rewrite Heq in Hall'. congruence.
      * rewrite Forall_forall in Hall |- *. intros x Hx Heq.
        specialize (Hall x Hx). rewrite Heq in Hall. congruence.
    + destruct (run_project b calls c Hc Hall) as [-> _].
      destruct (run_project b calls' c Hc Hall') as [-> _].
      by rewrite Hsame.
  - intros tag id c. rewrite !lookup_run.
    assert (Heq : storedMessages (pluralRules b) (messageTemplateKey c tag) calls =
                  storedMessages (pluralRules b) (messageTemplateKey c tag) calls');
      [|by rewrite Heq].
    unfold storedMessages. do 2 f_equal.
    destruct (decide (Exists (λ x, callKey x = messageTemplateKey c tag) calls)) as [Hex|Hnex].
    + apply Exists_exists in Hex as (c0 & Hc0 & Hk0). rewrite <- Hk0.
      rewrite Forall_forall in Hall.
      rewrite (filter_key_country _ c0 calls), (filter_key_country _ c0 calls');
        [|by apply Hall|done|by apply Hall|by apply Forall_forall].
      by rewrite Hsame.
    + rewrite !filter_none; [done| |].
      * intros x Hx [Hk _]. apply Hnex, Exists_exists. exists x. split; [by apply Hmem|done].
      * intros x Hx [Hk _]. apply Hnex, Exists_exists. by exists x.
Qed.

(** X9.  Calls for different country codes can be made in any order: when no
    country code has a hyphen, two sequences of calls that make the same
    calls for every country code, in the same order, end in bundles with
    the same tag lists and the same lookups.  (Their matchers may differ.) *)
Theorem run_country_order b (calls calls' : list Call) :
  Forall (λ c, hasHyphen (callCountry c) = false) calls →
  (∀ cc, filter (λ c, callCountry c = cc) calls = filter (λ c, callCountry c = cc) calls') →
  (∀ c, LanguageTags (run NewMessageTemplate b calls) c =
        LanguageTags (run NewMessageTemplate b calls') c) ∧
  (∀ tag id c, getMessageTemplate (run NewMessageTemplate b calls) tag id c =
               getMessageTemplate (run NewMessageTemplate b calls') tag id c).
Proof. apply run_by_country. Qed.

End CountryOrder.

(** ** Loading message files *)

Section LoadingFacts.

Context {MessageTemplate : Type}.
Variable NewMessageTemplate : Message -> option MessageTemplate.
Variable DefaultRules : gmap string PluralRule.
Context {UnmarshalFunc MessageFile : Type}.
Variable fileTag : MessageFile -> Tag.
Variable fileMessages : MessageFile -> list Message.
Variable ParseMessageFileBytes :
  list Byte.byte -> string -> option (gmap string UnmarshalFunc) -> string + MessageFile.
Variable ReadFile : string -> string + list Byte.byte.
Variable Join : list string -> string.
Variable ToLower : string -> string.
Variable tomlUnmarshal : UnmarshalFunc.

Implicit Types l : FileBundle MessageTemplate UnmarshalFunc.
Implicit Types b : Bundle MessageTemplate.

Local Abbreviation parseInto :=
  (Bundle_ParseMessageFileBytes NewMessageTemplate fileTag fileMessages ParseMessageFileBytes).
Local Abbreviation loadInto :=
  (LoadMessageFile NewMessageTemplate fileTag fileMessages ParseMessageFileBytes ReadFile).

(** X16.  [RegisterUnmarshalFunc] works on the [nil] registry as on any other: the
    function is then the one registered for its format, a later
    registration for the same format replaces it, the other formats keep
    theirs, registrations for distinct formats can be made in either
    order, and the bundle is not touched. *)
Theorem RegisterUnmarshalFunc_lookup l (f1 f2 : string) (u1 u2 : UnmarshalFunc) :
  f1 ≠ f2 →
  store (RegisterUnmarshalFunc l f1 u1) = store l ∧
  unmarshalFuncFor (RegisterUnmarshalFunc l f1 u1) f1 = Some u1 ∧
  unmarshalFuncFor (RegisterUnmarshalFunc l f1 u1) f2 = unmarshalFuncFor l f2 ∧
  RegisterUnmarshalFunc (RegisterUnmarshalFunc l f1 u1) f1 u2 = RegisterUnmarshalFunc l f1 u2 ∧
  RegisterUnmarshalFunc (RegisterUnmarshalFunc l f1 u1) f2 u2 =
    RegisterUnmarshalFunc (RegisterUnmarshalFunc l f2 u2) f1 u1.
Proof.
  intros Hne. unfold RegisterUnmarshalFunc, unmarshalFuncFor. simpl.
  split; [done|]. split; [by rewrite lookup_insert_eq|].
  split; [|split].
  - rewrite lookup_insert_ne by done. destruct (unmarshalFuncs l); [done|].
    by rewrite lookup_empty.
  - by rewrite insert_insert_eq.
  - by rewrite insert_insert_ne.
Qed.

(** The method [ParseMessageFileBytes], case by case. *)
Lemma parseInto_cases l (buf : list Byte.byte) (path cc : string) :
  (∃ err, ParseMessageFileBytes buf path (unmarshalFuncs l) = inl err ∧
          parseInto l buf path cc = (l, inl err)) ∨
  (∃ mf, ParseMessageFileBytes buf path (unmarshalFuncs l) = inr mf ∧
         Rules_Rule (pluralRules (store l)) (fileTag mf) = None ∧
         parseInto l buf path cc = (l, inl (noPluralRuleError (fileTag mf)))) ∨
  (∃ mf, ParseMessageFileBytes buf path (unmarshalFuncs l) = inr mf ∧
         is_Some (Rules_Rule (pluralRules (store l)) (fileTag mf)) ∧
         parseInto l buf path cc =
           (mkFileBundle
              (step NewMessageTemplate (store l) (mkCall cc (fileTag mf) (fileMessages mf)))
              (unmarshalFuncs l),
            inr mf)).
Proof.
  unfold Bundle_ParseMessageFileBytes.
  destruct (ParseMessageFileBytes buf path (unmarshalFuncs l)) as [err|mf] eqn:Hp.
  { left. eauto. }
  right. destruct (Rules_Rule (pluralRules (store l)) (fileTag mf)) eqn:Hr.
  - right. exists mf. split; [done|]. split; [eauto|].
    unfold step. simpl. by rewrite AddMessages_success by eauto.
  - left. exists mf. split; [done|]. split; [done|].
    rewrite AddMessages_failure by done. by destruct l.
Qed.

(** X17.  The method [ParseMessageFileBytes] is all or nothing: when it returns
    an error, which is the error of the parser or, for a file whose tag has
    no plural rule, the error of [AddMessages], the bundle with its
    registry is as it was. *)
Theorem ParseMessageFileBytes_error l (buf : list Byte.byte) (path cc err : string) :
  (parseInto l buf path cc).2 = inl err →
  (parseInto l buf path cc).1 = l ∧
  (ParseMessageFileBytes buf path (unmarshalFuncs l) = inl err ∨
   ∃ mf, ParseMessageFileBytes buf path (unmarshalFuncs l) = inr mf ∧
         Rules_Rule (pluralRules (store l)) (fileTag mf) = None ∧
         err = noPluralRuleError (fileTag mf)).
Proof.
  intros He.
  destruct (parseInto_cases l buf path cc)
    as [(e & Hp & Heq)|[(mf & Hp & Hr & Heq)|(mf & Hp & Hr & Heq)]];
    rewrite Heq in He |- *; simpl in *; [| |done].
  - injection He as <-. by split; [|left].
  - injection He as <-. split; [done|]. right. eauto.
Qed.

(** X18.  When the parser returns a file whose tag has a plural rule, the method
    returns this file, and the bundle is the one that [AddMessages] leaves
    for the country code, the tag and the messages of the file: the
    registry is as it was, and the lookup of the ID of any message of the
    file finds the template of the last message of the file with this ID. *)
Theorem ParseMessageFileBytes_success l (buf : list Byte.byte) (path cc : string)
    (mf : MessageFile) :
  ParseMessageFileBytes buf path (unmarshalFuncs l) = inr mf →
  is_Some (Rules_Rule (pluralRules (store l)) (fileTag mf)) →
  let r := parseInto l buf path cc in
  r.2 = inr mf ∧
  unmarshalFuncs r.1 = unmarshalFuncs l ∧
  store r.1 = (AddMessages NewMessageTemplate (store l) cc (fileTag mf) (fileMessages mf)).1 ∧
  (∀ m, m ∈ fileMessages mf →
     ∃ m', last (filter (λ x, ID x = ID m) (fileMessages mf)) = Some m' ∧
           getMessageTemplate (store r.1) (fileTag mf) (ID m) cc = NewMessageTemplate m').
Proof.
  intros Hp Hr r.
  destruct (parseInto_cases l buf path cc)
    as [(e & Hp' & _)|[(mf' & Hp' & Hr' & _)|(mf' & Hp' & _ & Heq)]].
  - congruence.
  - rewrite Hp in Hp'. injection Hp' as <-. rewrite Hr' in Hr. by destruct Hr.
  - rewrite Hp in Hp'. injection Hp' as <-. unfold r. rewrite Heq. simpl.
    split; [done|]. split; [done|]. split; [done|].
    intros m Hm. unfold step. simpl.
    rewrite getMessageTemplate_AddMessages by done. rewrite decide_True by done.
    destruct (last (filter (λ x, ID x = ID m) (fileMessages mf))) as [m'|] eqn:Hl; [eauto|].
    exfalso. apply last_None in Hl.
    assert (Hin : m ∈ filter (λ x, ID x = ID m) (fileMessages mf))
      by (by apply list_elem_of_filter).
    rewrite Hl in Hin. by apply elem_of_nil in Hin.
Qed.

(** [LoadMessageFile], case by case. *)
Lemma loadInto_cases l (path cc : string) :
  (∃ err, loadInto l path cc = (l, inl err)) ∨
  (∃ buf mf, ReadFile path = inr buf ∧
             ParseMessageFileBytes buf path (unmarshalFuncs l) = inr mf ∧
             is_Some (Rules_Rule (pluralRules (store l)) (fileTag mf)) ∧
             loadInto l path cc =
               (mkFileBundle
                  (step NewMessageTemplate (store l) (mkCall cc (fileTag mf) (fileMessages mf)))
                  (unmarshalFuncs l),
                inr mf)).
Proof.
  unfold LoadMessageFile. destruct (ReadFile path) as [err|buf] eqn:Hread.
  { left. eauto. }
  destruct (parseInto_cases l buf path cc)
    as [(e & _ & Heq)|[(mf & _ & _ & Heq)|(mf & Hp & Hr & Heq)]].
  - left. eauto.
  - left. eauto.
  - right. exists buf, mf. eauto.
Qed.

(** X19.  [LoadMessageFile] is all or nothing as well: it returns an error when
    the file cannot be read, when its bytes cannot be parsed, and when its
    tag has no plural rule, and then the bundle with its registry is as it
    was; a file that cannot be read is not handed to the parser, and its
    error is the one returned. *)
Theorem LoadMessageFile_error l (path cc err : string) :
  (loadInto l path cc).2 = inl err →
  (loadInto l path cc).1 = l ∧
  (ReadFile path = inl err ∨
   ∃ buf, ReadFile path = inr buf ∧
     (ParseMessageFileBytes buf path (unmarshalFuncs l) = inl err ∨
      ∃ mf, ParseMessageFileBytes buf path (unmarshalFuncs l) = inr mf ∧
            Rules_Rule (pluralRules (store l)) (fileTag mf) = None ∧
            err = noPluralRuleError (fileTag mf))).
Proof.
  unfold LoadMessageFile. destruct (ReadFile path) as [e|buf] eqn:Hread.
  - simpl. intros [= <-]. split; [done | by left].
  - intros He.
    destruct (parseInto_cases l buf path cc)
      as [(e & Hp & Heq)|[(mf & Hp & Hr & Heq)|(mf & Hp & Hr & Heq)]];
      rewrite Heq in He |- *; simpl in *; [| |done].
    + injection He as <-. split; [done|]. right. exists buf. split; [done | by left].
    + injection He as <-. split; [done|]. right. exists buf. split; [done|].
      right. eauto.
Qed.

(** ** The variants that panic *)

(** The loop over pointers that are all non-nil is the loop of
    [AddMessages]. *)
Lemma storeTemplates_Some (key : string) b (ms : list Message) :
  storeTemplates NewMessageTemplate key b (Some <$> ms) =
    Returned (foldl (storeTemplate NewMessageTemplate key) b ms).
Proof. revert b. induction ms as [|m ms IH]; intros b; simpl; [done | apply IH]. Qed.

(** The loop stops at the first [nil] pointer, with the templates of the
    messages before it stored. *)
Lemma storeTemplates_nil (key : string) b (ms : list Message)
    (rest : list (option Message)) :
  storeTemplates NewMessageTemplate key b ((Some <$> ms) ++ None :: rest) =
    Panicked (foldl (storeTemplate NewMessageTemplate key) b ms) nilPointerPanic.
Proof. revert b. induction ms as [|m ms IH]; intros b; simpl; [done | apply IH]. Qed.

(** A list of pointers has no [nil] pointer, or a first one. *)
Lemma pointers_split (messages : list (option Message)) :
  (∃ ms, messages = Some <$> ms) ∨
  (∃ ms rest, messages = ((Some <$> ms) ++ None :: rest)%list).
Proof.
  induction messages as [|[m|] messages IH].
  - left. by exists [].
  - destruct IH as [[ms ->]|(ms & rest & ->)].
    + left. by exists (m :: ms).
    + right. by exists (m :: ms), rest.
  - right. by exists [], messages.
Qed.

(** On pointers that are all non-nil, [AddMessages] is the function on the
    messages they point to. *)
Lemma AddMessages_pointers_Some b (cc : string) (tag : Tag) (ms : list Message) :
  AddMessages_pointers NewMessageTemplate b cc tag (Some <$> ms) =
    inl (AddMessages NewMessageTemplate b cc tag ms).
Proof.
  unfold AddMessages_pointers, AddMessages.
  destruct (Rules_Rule (pluralRules b) tag); [|done].
  cbv zeta. by rewrite storeTemplates_Some.
Qed.

(** With a plural rule for the tag, [AddMessages] panics at the first
    [nil] pointer, in the bundle that the messages before it give. *)
Lemma AddMessages_pointers_nil b (cc : string) (tag : Tag) (ms : list Message)
    (rest : list (option Message)) :
  is_Some (Rules_Rule (pluralRules b) tag) →
  AddMessages_pointers NewMessageTemplate b cc tag ((Some <$> ms) ++ None :: rest) =
    inr ((AddMessages NewMessageTemplate b cc tag ms).1, nilPointerPanic).
Proof.
  intros [r Hr]. unfold AddMessages_pointers, AddMessages. rewrite Hr.
  cbv zeta. by rewrite storeTemplates_nil.
Qed.

(** X15.  [MustAddMessages], on the message pointers as the caller hands
    them.  It returns exactly when the tag has a plural rule and no pointer
    is [nil], and the bundle is then the one that [AddMessages] leaves.  It
    panics in two cases: the tag has no plural rule, with the error of
    [AddMessages] and the bundle as it was; or the tag has a plural rule
    and a pointer is [nil], with the run-time panic of the dereference, in
    the bundle that [AddMessages] leaves on the messages before the first
    [nil] pointer: the pair is registered and these messages are stored. *)
Theorem MustAddMessages_cases b (cc : string) (tag : Tag)
    (messages : list (option Message)) :
  match MustAddMessages NewMessageTemplate b cc tag messages with
  | Returned b' =>
      is_Some (Rules_Rule (pluralRules b) tag) ∧
      ∃ ms, messages = Some <$> ms ∧
            b' = (AddMessages NewMessageTemplate b cc tag ms).1 ∧
            (AddMessages NewMessageTemplate b cc tag ms).2 = None
  | Panicked b' err =>
      (Rules_Rule (pluralRules b) tag = None ∧ b' = b ∧ err = noPluralRuleError tag) ∨
      (is_Some (Rules_Rule (pluralRules b) tag) ∧
       ∃ ms rest, messages = ((Some <$> ms) ++ None :: rest)%list ∧
                  b' = (AddMessages NewMessageTemplate b cc tag ms).1 ∧
                  err = nilPointerPanic)
  end.
Proof.
  unfold MustAddMessages.
  destruct (pointers_split messages) as [[ms ->]|(ms & rest & ->)].
  - rewrite AddMessages_pointers_Some.
    destruct (Rules_Rule (pluralRules b) tag) eqn:Hr.
    + rewrite AddMessages_success by eauto. simpl.
      split; [eauto|]. exists ms. by rewrite AddMessages_success by eauto.
    + rewrite AddMessages_failure by done. by left.
  - destruct (Rules_Rule (pluralRules b) tag) eqn:Hr.
    + rewrite AddMessages_pointers_nil by eauto. right. split; [eauto|]. by exists ms, rest.
    + unfold AddMessages_pointers. rewrite Hr. by left.
Qed.

(** X20.  [MustParseMessageFileBytes] panics exactly when the method
    [ParseMessageFileBytes] returns an error, with this error and the
    bundle as it was; when it returns, the bundle holds the messages of
    the parsed file. *)
Theorem MustParseMessageFileBytes_cases l (buf : list Byte.byte) (path cc : string) :
  match MustParseMessageFileBytes NewMessageTemplate fileTag fileMessages
          ParseMessageFileBytes l buf path cc with
  | Panicked l' err => l' = l ∧ (parseInto l buf path cc).2 = inl err
  | Returned l' =>
      ∃ mf, ParseMessageFileBytes buf path (unmarshalFuncs l) = inr mf ∧
            is_Some (Rules_Rule (pluralRules (store l)) (fileTag mf)) ∧
            unmarshalFuncs l' = unmarshalFuncs l ∧
            store l' = (AddMessages NewMessageTemplate (store l) cc
                          (fileTag mf) (fileMessages mf)).1
  end.
Proof.
  unfold MustParseMessageFileBytes.
  destruct (parseInto_cases l buf path cc)
    as [(e & Hp & Heq)|[(mf & Hp & Hr & Heq)|(mf & Hp & Hr & Heq)]];
    rewrite Heq; simpl; [done | done |].
  exists mf. by repeat split.
Qed.

(** X21.  [MustLoadMessageFile(countryCode, path)] hands its arguments to
    [LoadMessageFile(path, countryCode)]; it panics exactly when that
    returns an error, with this error and the bundle as it was; when it
    returns, the file was read and parsed and the bundle holds its
    messages under the country code. *)
Theorem MustLoadMessageFile_cases l (cc path : string) :
  match MustLoadMessageFile NewMessageTemplate fileTag fileMessages
          ParseMessageFileBytes ReadFile l cc path with
  | Panicked l' err => l' = l ∧ (loadInto l path cc).2 = inl err
  | Returned l' =>
      ∃ buf mf, ReadFile path = inr buf ∧
                ParseMessageFileBytes buf path (unmarshalFuncs l) = inr mf ∧
                is_Some (Rules_Rule (pluralRules (store l)) (fileTag mf)) ∧
                unmarshalFuncs l' = unmarshalFuncs l ∧
                store l' = (AddMessages NewMessageTemplate (store l) cc
                              (fileTag mf) (fileMessages mf)).1
  end.
Proof.
  unfold MustLoadMessageFile.
  destruct (loadInto_cases l path cc) as [(e & Heq)|(buf & mf & Hread & Hp & Hr & Heq)];
    rewrite Heq; simpl; [done|].
  exists buf, mf. by repeat split.
Qed.

(** ** CreateDefaultBundle of the example *)

Local Abbreviation loadAll :=
  (loadFiles NewMessageTemplate fileTag fileMessages ParseMessageFileBytes ReadFile Join).
Local Abbreviation loaded :=
  (loadedAs fileTag fileMessages ParseMessageFileBytes ReadFile Join).

Lemma loadLanguages_loadFiles (languages : list string) :
  ∀ l (folder cc : string),
    loadLanguages NewMessageTemplate fileTag fileMessages ParseMessageFileBytes
      ReadFile Join ToLower l folder cc languages =
    loadAll l folder ((λ lang, (ToLower cc, lang)) <$> languages).
Proof.
  induction languages as [|lang rest IH]; intros l folder cc; simpl; [done|].
  unfold filePath. simpl.
  destruct (loadInto l _ _) as [l' [err|mf]]; [done | apply IH].
Qed.

Lemma loadFiles_app (fs1 fs2 : list (string * string)) :
  ∀ l (folder : string),
    loadAll l folder (fs1 ++ fs2) =
      match loadAll l folder fs1 with
      | (l', Some err) => (l', Some err)
      | (l', None) => loadAll l' folder fs2
      end.
Proof.
  induction fs1 as [|f rest IH]; intros l folder; simpl; [done|].
  destruct (loadInto l _ _) as [l' [err|mf]]; [done | apply IH].
Qed.

(** The nested loops visit the files of [filesOf], in order. *)
Lemma loadCountries_loadFiles (entries : list (string * list string)) :
  ∀ l (folder : string),
    loadCountries NewMessageTemplate fileTag fileMessages ParseMessageFileBytes
      ReadFile Join ToLower l folder entries =
    loadAll l folder (filesOf ToLower entries).
Proof.
  induction entries as [|[cc languages] rest IH]; intros l folder; simpl; [done|].
  unfold filesOf. simpl. rewrite loadFiles_app, loadLanguages_loadFiles.
  destruct (loadAll l folder _) as [l' [err|]]; [done | apply IH].
Qed.

Lemma loadedAs_same l l' (folder : string) (c : Call) (f : string * string) :
  unmarshalFuncs l' = unmarshalFuncs l →
  pluralRules (store l') = pluralRules (store l) →
  loaded l' folder c f → loaded l folder c f.
Proof. unfold loadedAs. intros -> ->. done. Qed.

(** The loop over the files: either every file is loaded, each as one call
    of [AddMessages], or the loop stops at the first file whose loading
    returns an error, the files before it being loaded. *)
Lemma loadFiles_spec (folder : string) (files : list (string * string)) :
  ∀ l,
    match loadAll l folder files with
    | (l', None) =>
        ∃ calls, store l' = run NewMessageTemplate (store l) calls ∧
                 unmarshalFuncs l' = unmarshalFuncs l ∧
                 Forall2 (loaded l folder) calls files
    | (l', Some err) =>
        ∃ calls files1 f files2,
          files = (files1 ++ f :: files2)%list ∧
          store l' = run NewMessageTemplate (store l) calls ∧
          unmarshalFuncs l' = unmarshalFuncs l ∧
          Forall2 (loaded l folder) calls files1 ∧
          (loadInto l' (filePath Join folder f) f.1).2 = inl err
    end.
Proof.
  induction files as [|f rest IH]; intros l; simpl.
  { exists []. by repeat split. }
  destruct (loadInto_cases l (filePath Join folder f) f.1)
    as [(e & Heq)|(buf & mf & Hread & Hp & Hr & Heq)].
  - rewrite Heq. exists [], [], f, rest. rewrite Heq. by repeat split.
  - rewrite Heq. set (call := mkCall f.1 (fileTag mf) (fileMessages mf)) in *.
    set (l1 := mkFileBundle (step NewMessageTemplate (store l) call) (unmarshalFuncs l)) in *.
    assert (Hcall : loaded l folder call f).
    { split; [done|]. exists buf, mf. by repeat split. }
    assert (Hsame : ∀ c g, loaded l1 folder c g → loaded l folder c g).
    { intros c g. apply loadedAs_same; [done|]. apply step_pluralRules. }
    specialize (IH l1). destruct (loadAll l1 folder rest) as [l' [err|]].
    + destruct IH as (calls & files1 & g & files2 & -> & Hs & Hu & Hall & He).
      exists (call :: calls), (f :: files1), g, files2. split; [done|].
      split; [done|]. split; [done|]. split; [|done].
      constructor; [done|]. eapply Forall2_impl; [exact Hall | exact Hsame].
    + destruct IH as (calls & Hs & Hu & Hall).
      exists (call :: calls). split; [done|]. split; [done|].
      constructor; [done|]. eapply Forall2_impl; [exact Hall | exact Hsame].
Qed.

(** X22.  [CreateDefaultBundle] publishes all or nothing.  When it returns no
    error, the package variable holds a bundle obtained from
    [NewBundle("tr", Turkish)] by one call of [AddMessages] for each file of
    the country codes, lower-cased, and their languages, in the order of
    the loops, each call bringing the tag and the messages of its file;
    "toml" is the only format registered, and Turkish is still the first
    tag of "tr".  When it returns an error, the package variable is as it
    was, and the error is that of loading the first file that fails, after
    the files before it were loaded into the bundle that is dropped. *)
Theorem CreateDefaultBundle_all_or_nothing
    (bundle : option (FileBundle MessageTemplate UnmarshalFunc)) (folder : string)
    (entries : list (string * list string)) :
  let b0 := NewBundle DefaultRules "tr" Turkish in
  let l0 := mkFileBundle b0 (Some (<["toml" := tomlUnmarshal]> ∅)) in
  match CreateDefaultBundle NewMessageTemplate DefaultRules fileTag fileMessages
          ParseMessageFileBytes ReadFile Join ToLower tomlUnmarshal
          bundle folder entries with
  | (bundle', None) =>
      ∃ l calls,
        bundle' = Some l ∧
        store l = run NewMessageTemplate b0 calls ∧
        unmarshalFuncs l = Some (<["toml" := tomlUnmarshal]> ∅) ∧
        Forall2 (loaded l0 folder) calls (filesOf ToLower entries) ∧
        head (LanguageTags (store l) "tr") = Some Turkish
  | (bundle', Some err) =>
      bundle' = bundle ∧
      ∃ l calls files1 f files2,
        filesOf ToLower entries = (files1 ++ f :: files2)%list ∧
        store l = run NewMessageTemplate b0 calls ∧
        unmarshalFuncs l = Some (<["toml" := tomlUnmarshal]> ∅) ∧
        Forall2 (loaded l0 folder) calls files1 ∧
        (loadInto l (filePath Join folder f) f.1).2 = inl err
  end.
Proof.
  intros b0 l0. unfold CreateDefaultBundle.
  change (RegisterUnmarshalFunc _ "toml" tomlUnmarshal) with l0.
  rewrite loadCountries_loadFiles.
  pose proof (loadFiles_spec folder (filesOf ToLower entries) l0) as Hspec.
  destruct (loadAll l0 folder (filesOf ToLower entries)) as [l [err|]].
  - destruct Hspec as (calls & files1 & f & files2 & Hf & Hs & Hu & Hall & He).
    split; [done|]. exists l, calls, files1, f, files2. by repeat split.
  - destruct Hspec as (calls & Hs & Hu & Hall).
    change (store l0) with b0 in Hs.
    exists l, calls. split; [done|]. split; [done|]. split; [done|]. split; [done|].
    rewrite Hs.
    destruct (run_prefix NewMessageTemplate b0 calls "tr") as [k Hk].
    rewrite Hk. unfold b0. by rewrite NewBundle_tags, decide_True.
Qed.

(** ** The order in which the map is visited *)

Lemma loaded_unique l (folder : string) (c c' : Call) (f : string * string) :
  loaded l folder c f → loaded l folder c' f → c = c'.
Proof.
  intros (Hc & buf & mf & Hr & Hp & _ & Ht & Hm) (Hc' & buf' & mf' & Hr' & Hp' & _ & Ht' & Hm').
  rewrite Hr in Hr'. injection Hr' as <-. rewrite Hp in Hp'. injection Hp' as <-.
  destruct c, c'. simpl in *. congruence.
Qed.

Lemma loadInto_error_not_loaded l (folder : string) (f : string * string) (err : string) :
  (loadInto l (filePath Join folder f) f.1).2 = inl err → ¬ ∃ c, loaded l folder c f.
Proof.
  intros He (c & _ & buf & mf & Hread & Hp & Hr & _).
  unfold LoadMessageFile, Bundle_ParseMessageFileBytes in He.
  rewrite Hread, Hp in He. rewrite AddMessages_success in He by done. discriminate.
Qed.

Lemma Forall2_loaded_elem l (folder : string) (calls : list Call)
    (files : list (string * string)) :
  Forall2 (loaded l folder) calls files →
  (∀ f, f ∈ files → ∃ c, c ∈ calls ∧ loaded l folder c f) ∧
  (∀ c, c ∈ calls → ∃ f, f ∈ files ∧ loaded l folder c f).
Proof.
  induction 1 as [|c f calls files Hcf Hall [IH1 IH2]].
  { split; intros ? ?%elem_of_nil; done. }
  split.
  - intros g [->|Hg]%elem_of_cons.
    + exists c. split; [apply list_elem_of_here | done].
    + destruct (IH1 g Hg) as (c' & Hc' & Hl). exists c'.
      split; [by apply list_elem_of_further | done].
  - intros c' [->|Hc']%elem_of_cons.
    + exists f. split; [apply list_elem_of_here | done].
    + destruct (IH2 c' Hc') as (g & Hg & Hl). exists g.
      split; [by apply list_elem_of_further | done].
Qed.

(** The loop over the files returns no error exactly when every file can
    be loaded: whether a file can be loaded does not depend on the files
    loaded before it. *)
Lemma loadFiles_ok_iff l (folder : string) (files : list (string * string)) :
  (loadAll l folder files).2 = None ↔ ∀ f, f ∈ files → ∃ c, loaded l folder c f.
Proof.
  pose proof (loadFiles_spec folder files l) as Hspec.
  destruct (loadAll l folder files) as [l' [err|]]; simpl.
  - split; [discriminate|]. intros Hall. exfalso.
    destruct Hspec as (calls & files1 & f & files2 & -> & Hs & Hu & _ & He).
    apply loadInto_error_not_loaded in He. apply He.
    destruct (Hall f) as (c & Hc).
    { apply elem_of_app. right. apply list_elem_of_here. }
    exists c. apply (loadedAs_same l' l); [done| |done].
    rewrite Hs. symmetry. apply run_pluralRules.
  - split; [|done]. intros _ f Hf. destruct Hspec as (calls & _ & _ & Hall).
    destruct (proj1 (Forall2_loaded_elem l folder calls files Hall) f Hf) as (c & _ & Hc).
    by exists c.
Qed.

Lemma filesOf_cons (e : string * list string) (entries : list (string * list string)) :
  filesOf ToLower (e :: entries) =
    (((λ lang, (ToLower e.1, lang)) <$> e.2) ++ filesOf ToLower entries)%list.
Proof. done. Qed.

Lemma elem_of_filesOf (f : string * string) (entries : list (string * list string)) :
  f ∈ filesOf ToLower entries ↔
  ∃ e lang, e ∈ entries ∧ lang ∈ e.2 ∧ f = (ToLower e.1, lang).
Proof.
  induction entries as [|e entries IH].
  { split; [by intros ?%elem_of_nil | by intros (e & lang & ?%elem_of_nil & _)]. }
  rewrite filesOf_cons, elem_of_app, IH, list_elem_of_fmap. split.
  - intros [(lang & -> & Hl)|(e' & lang & He' & Hl & ->)].
    + exists e, lang. split; [apply list_elem_of_here | done].
    + exists e', lang. split; [by apply list_elem_of_further | done].
  - intros (e' & lang & [->|He']%elem_of_cons & Hl & ->).
    + left. by exists lang.
    + right. by exists e', lang.
Qed.

Lemma CreateDefaultBundle_snd
    (bundle : option (FileBundle MessageTemplate UnmarshalFunc)) (folder : string)
    (entries : list (string * list string)) :
  (CreateDefaultBundle NewMessageTemplate DefaultRules fileTag fileMessages
     ParseMessageFileBytes ReadFile Join ToLower tomlUnmarshal bundle folder entries).2 =
  (loadAll (mkFileBundle (MessageTemplate := MessageTemplate)
              (NewBundle DefaultRules "tr" Turkish) (Some (<["toml" := tomlUnmarshal]> ∅)))
     folder (filesOf ToLower entries)).2.
Proof.
  unfold CreateDefaultBundle. rewrite loadCountries_loadFiles.
  change (RegisterUnmarshalFunc _ "toml" tomlUnmarshal)
    with (mkFileBundle (MessageTemplate := MessageTemplate)
            (NewBundle DefaultRules "tr" Turkish) (Some (<["toml" := tomlUnmarshal]> ∅))).
  by destruct (loadAll _ _ _) as [l [err|]].
Qed.

(** X23.  [CreateDefaultBundle] returns no error exactly when the file of every
    country code and language of the map can be read, parsed with the
    "toml" function, and has a tag with a plural rule; so whether it
    returns an error does not depend on the order in which the map is
    visited. *)
Theorem CreateDefaultBundle_succeeds_iff
    (bundle : option (FileBundle MessageTemplate UnmarshalFunc)) (folder : string)
    (entries : list (string * list string)) :
  let l0 := mkFileBundle (MessageTemplate := MessageTemplate)
              (NewBundle DefaultRules "tr" Turkish) (Some (<["toml" := tomlUnmarshal]> ∅)) in
  let create := CreateDefaultBundle NewMessageTemplate DefaultRules fileTag fileMessages
                  ParseMessageFileBytes ReadFile Join ToLower tomlUnmarshal bundle folder in
  ((create entries).2 = None ↔
   ∀ e lang, e ∈ entries → lang ∈ e.2 → ∃ c, loaded l0 folder c (ToLower e.1, lang)) ∧
  (∀ entries', entries ≡ₚ entries' →
     ((create entries).2 = None ↔ (create entries').2 = None)).
Proof.
  intros l0 create.
  assert (Hiff : ∀ es, (create es).2 = None ↔
            ∀ e lang, e ∈ es → lang ∈ e.2 → ∃ c, loaded l0 folder c (ToLower e.1, lang)).
  { intros es. unfold create. rewrite CreateDefaultBundle_snd, loadFiles_ok_iff. split.
    - intros H e lang He Hl. apply H, elem_of_filesOf. by exists e, lang.
    - intros H f (e & lang & He & Hl & ->)%elem_of_filesOf. by apply H. }
  split; [apply Hiff|].
  intros entries' Hp. rewrite !Hiff. split; intros H e lang He; apply H.
  - by rewrite Hp.
  - by rewrite <- Hp.
Qed.

Lemma filter_fmap_short {A B : Type} `{EqDecision B} (g : A → B) (v : B) (xs : list A) :
  NoDup (g <$> xs) → (length (filter (λ x, g x = v) xs) ≤ 1)%nat.
Proof.
  induction xs as [|x xs IH]; simpl; [intros _; simpl; lia|].
  intros [Hnin Hnd]%NoDup_cons. destruct (decide (g x = v)) as [Heq|Hne].
  - rewrite filter_cons_True by done. simpl.
    destruct (filter (λ y, g y = v) xs) as [|y ys] eqn:Hf; [simpl; lia|].
    exfalso. apply Hnin.
    assert (Hy : y ∈ filter (λ y, g y = v) xs) by (rewrite Hf; apply list_elem_of_here).
    apply list_elem_of_filter in Hy as [Hv Hy].
    rewrite Heq, <- Hv. by apply list_elem_of_fmap_2.
  - rewrite filter_cons_False by done. by apply IH.
Qed.

Lemma filter_fmap_Permutation {A B : Type} `{EqDecision B} (g : A → B) (v : B)
    (xs ys : list A) :
  xs ≡ₚ ys → NoDup (g <$> xs) →
  filter (λ x, g x = v) xs = filter (λ x, g x = v) ys.
Proof.
  intros Hp Hnd.
  assert (Hf : filter (λ x, g x = v) xs ≡ₚ filter (λ x, g x = v) ys) by (by rewrite Hp).
  pose proof (filter_fmap_short g v xs Hnd) as Hlen.
  destruct (filter (λ x, g x = v) xs) as [|x [|y l']].
  - by apply Permutation_nil_l in Hf as ->.
  - by apply Permutation_singleton_l in Hf as ->.
  - simpl in Hlen. lia.
Qed.

(** The files of one lower-cased country code, in the order of the loops. *)
Lemma filesOf_filter (entries : list (string * list string)) (cc : string) :
  filter (λ f : string * string, f.1 = cc) (filesOf ToLower entries) =
    (λ lang, (cc, lang)) <$>
      concat (snd <$> filter (λ e : string * list string, ToLower e.1 = cc) entries).
Proof.
  induction entries as [|e entries IH]; [done|].
  rewrite filesOf_cons, filter_app, IH.
  destruct (decide (ToLower e.1 = cc)) as [Heq|Hne].
  - rewrite (filter_cons_True (λ e0 : string * list string, ToLower e0.1 = cc)) by done.
    simpl. rewrite fmap_app. f_equal.
    rewrite Heq. clear. induction (e.2) as [|lang ls IHl]; [done|].
    rewrite !fmap_cons, filter_cons_True by done. by rewrite IHl.
  - rewrite (filter_cons_False (λ e0 : string * list string, ToLower e0.1 = cc)) by done.
    rewrite filter_none; [done|].
    intros f (lang & -> & _)%list_elem_of_fmap. done.
Qed.

Lemma Forall2_loaded_filter l (folder cc : string) (calls : list Call)
    (files : list (string * string)) :
  Forall2 (loaded l folder) calls files →
  Forall2 (loaded l folder)
    (filter (λ c, callCountry c = cc) calls)
    (filter (λ f : string * string, f.1 = cc) files).
Proof.
  induction 1 as [|c f calls files Hcf Hall IH]; [constructor|].
  assert (Hc : callCountry c = f.1) by apply Hcf.
  destruct (decide (f.1 = cc)) as [Heq|Hne].
  - rewrite !filter_cons_True by congruence. by constructor.
  - rewrite !filter_cons_False by congruence. done.
Qed.

(** X24.  The bundle that [CreateDefaultBundle] publishes does not depend on the
    order in which the map is visited, as far as tag lists, lookups and
    the registry go: when the lower-cased country codes of the map are
    pairwise distinct and have no hyphen, two visiting orders either both
    return an error and publish nothing, or publish bundles with the same
    tag lists, the same lookups and the same registry. *)
Theorem CreateDefaultBundle_map_order
    (bundle : option (FileBundle MessageTemplate UnmarshalFunc)) (folder : string)
    (entries entries' : list (string * list string)) :
  entries ≡ₚ entries' →
  NoDup ((λ e : string * list string, ToLower e.1) <$> entries) →
  Forall (λ e : string * list string, hasHyphen (ToLower e.1) = false) entries →
  let create := CreateDefaultBundle NewMessageTemplate DefaultRules fileTag fileMessages
                  ParseMessageFileBytes ReadFile Join ToLower tomlUnmarshal bundle folder in
  match create entries, create entries' with
  | (Some l, None), (Some l', None) =>
      unmarshalFuncs l = unmarshalFuncs l' ∧
      (∀ c, LanguageTags (store l) c = LanguageTags (store l') c) ∧
      (∀ tag id c, getMessageTemplate (store l) tag id c =
                   getMessageTemplate (store l') tag id c)
  | (bundle1, Some _), (bundle2, Some _) => bundle1 = bundle ∧ bundle2 = bundle
  | _, _ => False
  end.
Proof.
  intros Hp Hnd Hhf create.
  set (l0 := mkFileBundle (MessageTemplate := MessageTemplate)
               (NewBundle DefaultRules "tr" Turkish) (Some (<["toml" := tomlUnmarshal]> ∅))).
  assert (Hok : (loadAll l0 folder (filesOf ToLower entries)).2 = None ↔
                (loadAll l0 folder (filesOf ToLower entries')).2 = None).
  { rewrite !loadFiles_ok_iff. split; intros H f (e & lang & He & Hl & ->)%elem_of_filesOf;
      apply H, elem_of_filesOf; exists e, lang; split; try done.
    - by rewrite Hp.
    - by rewrite <- Hp. }
  unfold create, CreateDefaultBundle. rewrite !loadCountries_loadFiles.
  change (RegisterUnmarshalFunc _ "toml" tomlUnmarshal) with l0.
  pose proof (loadFiles_spec folder (filesOf ToLower entries) l0) as Hs1.
  pose proof (loadFiles_spec folder (filesOf ToLower entries') l0) as Hs2.
  destruct (loadAll l0 folder (filesOf ToLower entries)) as [l1 [e1|]];
    destruct (loadAll l0 folder (filesOf ToLower entries')) as [l2 [e2|]]; simpl in Hok.
  - by destruct bundle.
  - discriminate (proj2 Hok eq_refl).
  - discriminate (proj1 Hok eq_refl).
  - destruct Hs1 as (calls & Hst1 & Hu1 & Hall1). destruct Hs2 as (calls' & Hst2 & Hu2 & Hall2).
    split; [by rewrite Hu1, Hu2|].
    rewrite Hst1, Hst2. apply run_by_country.
    + apply Forall_forall. intros c Hc.
      destruct (proj2 (Forall2_loaded_elem l0 folder calls _ Hall1) c Hc) as (f & Hf & Hl).
      apply elem_of_filesOf in Hf as (e & lang & He & _ & ->).
      destruct Hl as [-> _]. simpl. rewrite Forall_forall in Hhf. by apply Hhf.
    + intros cc.
      pose proof (Forall2_loaded_filter l0 folder cc calls _ Hall1) as H1.
      pose proof (Forall2_loaded_filter l0 folder cc calls' _ Hall2) as H2.
      rewrite !filesOf_filter in H1, H2.
      rewrite <- (filter_fmap_Permutation (λ e : string * list string, ToLower e.1) cc
                    entries entries' Hp Hnd) in H2.
      apply Forall2_flip in H1, H2.
      eapply Forall2_unique; [exact H1 | exact H2|].
      intros f c c' Hc Hc'. by eapply loaded_unique.
Qed.

End LoadingFacts.

(** ** The further properties on the small instance *)

Lemma AddMessages_Permutation_witness :
  [hello; mkMessage "bye" "" "" "" "" "" "Bye"] ≡ₚ [mkMessage "bye" "" "" "" "" "" "Bye"; hello] ∧
  NoDup (ID <$> [hello; mkMessage "bye" "" "" "" "" "" "Bye"]) ∧
  AddMessages Some (sampleBundle "tr" "en") "tr" "en"
    [hello; mkMessage "bye" "" "" "" "" "" "Bye"] =
  AddMessages Some (sampleBundle "tr" "en") "tr" "en"
    [mkMessage "bye" "" "" "" "" "" "Bye"; hello].
Proof.
  assert (Hp : [hello; mkMessage "bye" "" "" "" "" "" "Bye"] ≡ₚ
               [mkMessage "bye" "" "" "" "" "" "Bye"; hello]) by apply perm_swap.
  assert (Hnd : NoDup (ID <$> [hello; mkMessage "bye" "" "" "" "" "" "Bye"])).
  { simpl. apply NoDup_cons. split.
    - intros [Heq|Hin]%elem_of_cons; [discriminate | by apply elem_of_nil in Hin].
    - apply NoDup_singleton. }
  split; [exact Hp|]. split; [exact Hnd|].
  exact (AddMessages_Permutation Some (sampleBundle "tr" "en") "tr" "en" _ _ Hp Hnd).
Defined.

Lemma AddMessages_frame_witness :
  messageTemplateKey "de" "de" ≠ messageTemplateKey "tr" "tr" ∧
  getMessageTemplate (sampleAdd (sampleAdd (sampleBundle "tr" "en") "de" "de" [hello])
                        "tr" "tr" [merhaba]) "de" "hello" "de" =
  getMessageTemplate (sampleAdd (sampleBundle "tr" "en") "de" "de" [hello]) "de" "hello" "de".
Proof.
  assert (Hk : messageTemplateKey "de" "de" ≠ messageTemplateKey "tr" "tr") by discriminate.
  split; [exact Hk|].
  exact (proj1 (proj2 (proj2 (proj2
           (AddMessages_frame Some (sampleAdd (sampleBundle "tr" "en") "de" "de" [hello])
              "tr" "tr" [merhaba])))) "de" "hello" "de" Hk).
Defined.

Lemma registered_has_rule_witness :
  "de" ∈ LanguageTags (run Some (sampleBundle "tr" "en") [mkCall "de" "de" []]) "de" ∧
  is_Some (Rules_Rule
             (pluralRules (run Some (sampleBundle "tr" "en") [mkCall "de" "de" []])) "de").
Proof.
  assert (Hin : "de" ∈ LanguageTags
                         (run Some (sampleBundle "tr" "en") [mkCall "de" "de" []]) "de")
    by (vm_compute; apply list_elem_of_here).
  split; [exact Hin|].
  destruct (registered_has_rule Some sampleRules "tr" "en" [mkCall "de" "de" []] "de" "de" Hin)
    as [[Hcc _]|Hr]; [discriminate | exact Hr].
Defined.

Lemma addTag_idempotent_witness :
  NoDup (LanguageTags (sampleBundle "tr" "en") "tr") ∧
  NoDup (LanguageTags (addTag (sampleBundle "tr" "en") "tr" "de") "tr").
Proof.
  assert (Hnd : NoDup (LanguageTags (sampleBundle "tr" "en") "tr"))
    by (vm_compute; apply NoDup_singleton).
  split; [exact Hnd|].
  exact (proj2 (proj2 (proj2 (proj2 (proj2 (proj2
           (addTag_idempotent (sampleBundle "tr" "en") "tr" "de")))))) Hnd).
Defined.

Lemma messageTemplateKey_injective_witness :
  messageTemplateKey "tr" "en" = messageTemplateKey "tr" "en" ∧
  hasHyphen "tr" = false ∧ ("tr" = "tr" ∧ "en" = "en").
Proof.
  split; [reflexivity|]. split; [reflexivity|].
  exact (proj2 (messageTemplateKey_injective "tr" "tr" "en" "en" eq_refl) eq_refl eq_refl).
Defined.

Lemma registered_iff_without_hyphen_witness :
  hasHyphen "de" = false ∧
  Forall (λ c, hasHyphen (callCountry c) = false) [mkCall "de" "de" [hello]] ∧
  ("de" ∈ LanguageTags (run Some (sampleBundle "tr" "en") [mkCall "de" "de" [hello]]) "de" ↔
   ("de" = "tr" ∧ "de" = "en") ∨
   ∃ c, c ∈ [mkCall "de" "de" [hello]] ∧ addsFor (sampleBundle "tr" "en") "de" "de" c).
Proof.
  assert (Hc : Forall (λ c, hasHyphen (callCountry c) = false) [mkCall "de" "de" [hello]]).
  { constructor; [reflexivity | constructor]. }
  split; [reflexivity|]. split; [exact Hc|].
  exact (registered_iff_without_hyphen Some sampleRules "tr" "en"
           [mkCall "de" "de" [hello]] "de" "de" eq_refl Hc).
Defined.

Lemma getMessageTemplate_never_added_witness :
  hasHyphen "de" = false ∧
  Forall (λ c, hasHyphen (callCountry c) = false) [mkCall "tr" "tr" [merhaba]] ∧
  ¬ (∃ c, c ∈ [mkCall "tr" "tr" [merhaba]] ∧ addsFor (sampleBundle "tr" "en") "de" "de" c) ∧
  getMessageTemplate (run Some (sampleBundle "tr" "en") [mkCall "tr" "tr" [merhaba]])
    "de" "hello" "de" = None.
Proof.
  assert (Hc : Forall (λ c, hasHyphen (callCountry c) = false) [mkCall "tr" "tr" [merhaba]]).
  { constructor; [reflexivity | constructor]. }
  assert (Hn : ¬ (∃ c, c ∈ [mkCall "tr" "tr" [merhaba]] ∧
                       addsFor (sampleBundle "tr" "en") "de" "de" c)).
  { intros (c & Hin & Hcc & _). apply list_elem_of_singleton in Hin. subst c. discriminate. }
  split; [reflexivity|]. split; [exact Hc|]. split; [exact Hn|].
  exact (getMessageTemplate_never_added Some sampleRules "tr" "en"
           [mkCall "tr" "tr" [merhaba]] "de" "de" "hello" eq_refl Hc Hn).
Defined.

(** [MustAddMessages] on a [nil] pointer after a message: it panics with
    the pair registered and the message before the pointer stored, and
    the message after it is not stored. *)
Example MustAddMessages_nil_pointer :
  ∃ b', MustAddMessages Some (sampleBundle "tr" "en") "tr" "tr"
          [Some merhaba; None; Some (mkMessage "bye" "" "" "" "" "" "Bye")] =
          Panicked b' nilPointerPanic ∧
        LanguageTags b' "tr" = ["en"; "tr"] ∧
        getMessageTemplate b' "tr" "hello" "tr" = Some merhaba ∧
        getMessageTemplate b' "tr" "bye" "tr" = None.
Proof.
  eexists. split; [reflexivity|]. repeat split; vm_compute; reflexivity.
Qed.

Lemma RegisterUnmarshalFunc_lookup_witness :
  "json" ≠ "toml" ∧
  unmarshalFuncFor (RegisterUnmarshalFunc sampleFileBundle "json" tt) "toml" = Some tt.
Proof.
  assert (Hne : "json" ≠ "toml") by discriminate.
  split; [exact Hne|].
  rewrite (proj1 (proj2 (proj2
             (RegisterUnmarshalFunc_lookup sampleFileBundle "json" "toml" tt tt Hne)))).
  reflexivity.
Defined.

Lemma ParseMessageFileBytes_error_witness :
  let r := Bundle_ParseMessageFileBytes Some fst snd sampleParse sampleFileBundle []
             "lang/tr/active.zz.toml" "tr" in
  r.2 = inl "no plural rule registered for zz" ∧ r.1 = sampleFileBundle.
Proof.
  intros r.
  assert (He : r.2 = inl "no plural rule registered for zz") by (vm_compute; reflexivity).
  split; [exact He|].
  exact (proj1 (ParseMessageFileBytes_error Some fst snd sampleParse sampleFileBundle []
                  "lang/tr/active.zz.toml" "tr" _ He)).
Defined.

Lemma ParseMessageFileBytes_success_witness :
  sampleParse [] "lang/tr/active.tr.toml" (unmarshalFuncs sampleFileBundle) =
    inr ("tr", [merhaba]) ∧
  is_Some (Rules_Rule (pluralRules (store sampleFileBundle)) "tr") ∧
  (Bundle_ParseMessageFileBytes Some fst snd sampleParse sampleFileBundle []
     "lang/tr/active.tr.toml" "tr").2 = inr ("tr", [merhaba]).
Proof.
  assert (Hp : sampleParse [] "lang/tr/active.tr.toml" (unmarshalFuncs sampleFileBundle) =
               inr ("tr", [merhaba])) by (vm_compute; reflexivity).
  assert (Hr : is_Some (Rules_Rule (pluralRules (store sampleFileBundle)) "tr"))
    by (exists englishRule; vm_compute; reflexivity).
  split; [exact Hp|]. split; [exact Hr|].
  exact (proj1 (ParseMessageFileBytes_success Some fst snd sampleParse sampleFileBundle []
                  "lang/tr/active.tr.toml" "tr" ("tr", [merhaba]) Hp Hr)).
Defined.

Lemma LoadMessageFile_error_witness :
  let r := LoadMessageFile Some fst snd sampleParse sampleRead sampleFileBundle
             "lang/tr/missing.toml" "tr" in
  r.2 = inl "no such file" ∧ r.1 = sampleFileBundle.
Proof.
  intros r.
  assert (He : r.2 = inl "no such file") by (vm_compute; reflexivity).
  split; [exact He|].
  exact (proj1 (LoadMessageFile_error Some fst snd sampleParse sampleRead sampleFileBundle
                  "lang/tr/missing.toml" "tr" _ He)).
Defined.


Lemma run_country_order_witness :
  let calls := [mkCall "tr" "tr" [merhaba]; mkCall "de" "de" [hello]] in
  let calls' := [mkCall "de" "de" [hello]; mkCall "tr" "tr" [merhaba]] in
  Forall (λ c, hasHyphen (callCountry c) = false) calls ∧
  (∀ cc, filter (λ c, callCountry c = cc) calls = filter (λ c, callCountry c = cc) calls') ∧
  LanguageTags (run Some (sampleBundle "tr" "en") calls) "tr" =
    LanguageTags (run Some (sampleBundle "tr" "en") calls') "tr".
Proof.
  intros calls calls'.
  assert (Hall : Forall (λ c, hasHyphen (callCountry c) = false) calls).
  { repeat constructor. }
  assert (Hsame : ∀ cc, filter (λ c, callCountry c = cc) calls =
                        filter (λ c, callCountry c = cc) calls').
  { intros cc. unfold calls, calls'.
    destruct (decide ("tr" = cc)) as [<-|Htr].
    - reflexivity.
    - destruct (decide ("de" = cc)) as [<-|Hde]; [reflexivity|].
      rewrite !filter_cons_False by done. reflexivity. }
  split; [exact Hall|]. split; [exact Hsame|].
  exact (proj1 (run_country_order Some (sampleBundle "tr" "en") calls calls' Hall Hsame) "tr").
Defined.

Example sampleCreate_publishes :
  match sampleCreate [("TR", ["tr"]); ("GB", ["en"])] with
  | (Some l, None) =>
      LanguageTags (store l) "tr" = ["tr"] ∧
      LanguageTags (store l) "gb" = ["en"] ∧
      getMessageTemplate (store l) "tr" "hello" "tr" = Some merhaba ∧
      getMessageTemplate (store l) "en" "hello" "gb" = Some hello
  | _ => False
  end.
Proof. vm_compute. repeat split; reflexivity. Qed.

Example sampleCreate_fails :
  sampleCreate [("TR", ["tr"; "zz"]); ("GB", ["en"])] =
    (None, Some "no plural rule registered for zz").
Proof. vm_compute. reflexivity. Qed.

Lemma CreateDefaultBundle_succeeds_iff_witness :
  [("TR", ["tr"]); ("GB", ["en"])] ≡ₚ [("GB", ["en"]); ("TR", ["tr"])] ∧
  ((sampleCreate [("TR", ["tr"]); ("GB", ["en"])]).2 = None ↔
   (sampleCreate [("GB", ["en"]); ("TR", ["tr"])]).2 = None).
Proof.
  assert (Hp : [("TR", ["tr"]); ("GB", ["en"])] ≡ₚ [("GB", ["en"]); ("TR", ["tr"])])
    by apply perm_swap.
  split; [exact Hp|].
  exact (proj2 (CreateDefaultBundle_succeeds_iff Some sampleRules fst snd sampleParse
                  sampleRead sampleJoin sampleLower tt None "lang"
                  [("TR", ["tr"]); ("GB", ["en"])]) _ Hp).
Defined.

Lemma CreateDefaultBundle_map_order_witness :
  let entries := [("TR", ["tr"]); ("GB", ["en"])] in
  let entries' := [("GB", ["en"]); ("TR", ["tr"])] in
  entries ≡ₚ entries' ∧
  NoDup ((λ e : string * list string, sampleLower e.1) <$> entries) ∧
  Forall (λ e : string * list string, hasHyphen (sampleLower e.1) = false) entries ∧
  match sampleCreate entries, sampleCreate entries' with
  | (Some l, None), (Some l', None) =>
      unmarshalFuncs l = unmarshalFuncs l' ∧
      (∀ c, LanguageTags (store l) c = LanguageTags (store l') c) ∧
      (∀ tag id c, getMessageTemplate (store l) tag id c =
                   getMessageTemplate (store l') tag id c)
  | (bundle1, Some _), (bundle2, Some _) => bundle1 = None ∧ bundle2 = None
  | _, _ => False
  end.
Proof.
  intros entries entries'.
  assert (Hp : entries ≡ₚ entries') by apply perm_swap.
  assert (Hnd : NoDup ((λ e : string * list string, sampleLower e.1) <$> entries)).
  { change (NoDup ["tr"; "gb"]). apply NoDup_cons. split.
    - intros [Heq|Hin]%elem_of_cons; [discriminate | by apply elem_of_nil in Hin].
    - apply NoDup_singleton. }
  assert (Hhf : Forall (λ e : string * list string, hasHyphen (sampleLower e.1) = false)
                  entries).
  { repeat constructor. }
  split; [exact Hp|]. split; [exact Hnd|]. split; [exact Hhf|].
  exact (CreateDefaultBundle_map_order Some sampleRules fst snd sampleParse sampleRead
           sampleJoin sampleLower tt None "lang" entries entries' Hp Hnd Hhf).
Defined.
